(** * TextSummarizer: the summarization pipeline of [text_summarizer.py]

    A shallow embedding of the class [TextSummarizer] (and of the guard of
    [SummaryTool.process_pdf]) together with the properties the specification
    states about it.

    Conventions of the embedding.
    - A Python [str] is a [text], a list of characters.  Characters are
      [ascii] values read as the code points U+0000 .. U+00FF; the character
      classes below ([is_space], [is_word], [lower]) are those of CPython's
      Unicode tables restricted to that range.
    - A Python [int] is a [Z].
    - The two float expressions of the source ([target_word_count * 1.2] and
      [round(word_count / 155, 1)]) are computed over the rationals [Q].  For
      integers below 2^48 the IEEE doubles give the same answers: the double
      [n * 1.2] is [6n/5] itself when that is an integer and lies strictly
      between the same two integers otherwise, so its comparison with a word
      count is the exact one; and [10n/155 = 2n/31] is never half-way between
      two integers, so the double [n / 155] rounds to the same tenth as the
      exact quotient.
    - A call that may raise returns an [outcome]. *)

From Stdlib Require Import Ascii String.
From Stdlib Require Import List ZArith QArith Bool Arith Lia.
From Stdlib Require Import Permutation Sorted.
Import ListNotations.

Close Scope Q_scope.
Open Scope list_scope.
Open Scope bool_scope.

Set Implicit Arguments.

(** ** Characters and strings *)

Definition text := list ascii.

Definition str (s : string) : text := list_ascii_of_string s.

Definition code (c : ascii) : N := N_of_ascii c.

Definition in_range (lo hi : N) (c : ascii) : bool :=
  ((lo <=? code c) && (code c <=? hi))%N.

(** [str.isspace] and the regular-expression class [\s]. *)
Definition is_space (c : ascii) : bool :=
  in_range 9 13 c || in_range 28 32 c
  || (code c =? 133)%N || (code c =? 160)%N.

Definition is_digit (c : ascii) : bool := in_range 48 57 c.
Definition is_upper (c : ascii) : bool := in_range 65 90 c.
Definition is_lower (c : ascii) : bool := in_range 97 122 c.
Definition is_alpha (c : ascii) : bool := is_upper c || is_lower c.

(** The regular-expression class [\w]: alphanumerics and the underscore. *)
Definition is_word (c : ascii) : bool :=
  is_digit c || is_alpha c || (code c =? 95)%N
  || (code c =? 170)%N || in_range 178 179 c || (code c =? 181)%N
  || in_range 185 186 c || in_range 188 190 c
  || in_range 192 214 c || in_range 216 246 c || in_range 248 255 c.

(** [str.lower], character by character. *)
Definition lower_char (c : ascii) : ascii :=
  if is_upper c || in_range 192 214 c || in_range 216 222 c
  then ascii_of_N (code c + 32) else c.

Definition lower (s : text) : text := map lower_char s.

Definition len (s : text) : Z := Z.of_nat (length s).

Definition text_eqb (a b : text) : bool :=
  if list_eq_dec ascii_dec a b then true else false.

Definition is_nil {A} (l : list A) : bool :=
  match l with [] => true | _ => false end.

Definition space : ascii := " "%char.
Definition newline : ascii := ascii_of_N 10.

(** [sep.join(ws)] *)
Fixpoint str_join (sep : text) (ws : list text) : text :=
  match ws with
  | [] => []
  | [w] => w
  | w :: ws' => w ++ sep ++ str_join sep ws'
  end.

Definition starts_word (s : text) : bool :=
  match s with
  | d :: _ => negb (is_space d)
  | [] => false
  end.

(** [s.split()]: the maximal runs of non-whitespace characters, in order. *)
Fixpoint str_split (s : text) : list text :=
  match s with
  | [] => []
  | c :: s' =>
      if is_space c then str_split s'
      else if starts_word s' then
             match str_split s' with
             | w :: ws => (c :: w) :: ws
             | [] => [[c]]
             end
           else [c] :: str_split s'
  end.

Fixpoint lstrip (s : text) : text :=
  match s with
  | c :: s' => if is_space c then lstrip s' else s
  | [] => []
  end.

(** [s.strip()] *)
Definition strip (s : text) : text := rev (lstrip (rev (lstrip s))).

(** ** Outcomes of calls that may raise *)

Inductive exn : Type :=
| ValueError (msg : text)
| FileNotFoundError
| ExtractionError
| APIError.

Inductive outcome (A : Type) : Type :=
| Returns (a : A)
| Raises (e : exn).

Arguments Returns {A} a.
Arguments Raises {A} e.

(** ** [_calculate_target_word_count] *)

Definition words_per_minute : Z := 155.

Definition _calculate_target_word_count (duration_minutes : Z) : outcome Z :=
  Returns (duration_minutes * words_per_minute)%Z.

(** ** [_split_text_into_chunks] *)

Record chunker : Type := Chunker {
  chunks : list text;
  current_chunk : list text;
  current_length : Z
}.

Definition chunk_step (max_length : Z) (st : chunker) (word : text) : chunker :=
  if ((current_length st + len word + 1 >? max_length)%Z
      && negb (is_nil (current_chunk st)))%bool
  then Chunker (chunks st ++ [str_join [space] (current_chunk st)])
               [word] (len word)
  else Chunker (chunks st) (current_chunk st ++ [word])
               (current_length st + len word + 1)%Z.

Definition chunk_flush (st : chunker) : list text :=
  if is_nil (current_chunk st) then chunks st
  else chunks st ++ [str_join [space] (current_chunk st)].

Definition _split_text_into_chunks (t : text) (max_length : Z) : list text :=
  chunk_flush
    (fold_left (chunk_step max_length) (str_split t) (Chunker [] [] 0%Z)).

(** ** Regular expressions

    The fragment of Python's [re] that the source uses: character classes,
    greedy repetition of a class, concatenation, the word boundary, the end of
    line under [re.MULTILINE] and look-ahead.  A match attempt at a cursor
    yields the lengths it can consume in the order the backtracking matcher
    tries them; the first one is the match. *)

Definition cclass := ascii -> bool.

Inductive regex : Type :=
| Chr (p : cclass)              (* one character of the class *)
| Rep (p : cclass) (lo : nat)   (* [lo] or more characters, greedy *)
| Cat (a b : regex)             (* [a] then [b] *)
| WordB                         (* \b *)
| EolM                          (* $ under re.MULTILINE *)
| Ahead (a : regex).            (* (?=a) *)

Fixpoint run (p : cclass) (s : text) : nat :=
  match s with
  | c :: s' => if p c then S (run p s') else 0
  | [] => 0
  end.

(** [hi, hi-1, ..., lo] *)
Definition countdown (hi lo : nat) : list nat := rev (seq lo (S hi - lo)).

Definition word_before (prev : option ascii) : bool :=
  match prev with Some c => is_word c | None => false end.

Definition word_at (s : text) : bool :=
  match s with c :: _ => is_word c | [] => false end.

Definition prev_at (prev : option ascii) (s : text) (k : nat) : option ascii :=
  match k with
  | 0 => prev
  | S k' => nth_error s k'
  end.

Fixpoint ends (r : regex) (prev : option ascii) (s : text) : list nat :=
  match r with
  | Chr p =>
      match s with
      | c :: _ => if p c then [1] else []
      | [] => []
      end
  | Rep p lo =>
      let n := run p s in if lo <=? n then countdown n lo else []
  | Cat a b =>
      flat_map
        (fun k => map (Nat.add k) (ends b (prev_at prev s k) (skipn k s)))
        (ends a prev s)
  | WordB => if xorb (word_before prev) (word_at s) then [0] else []
  | EolM =>
      match s with
      | [] => [0]
      | c :: _ => if (code c =? 10)%N then [0] else []
      end
  | Ahead a => if is_nil (ends a prev s) then [] else [0]
  end.

(** The matches that start at one position: the first by priority and, when
    that one is empty, the first non-empty one after it. *)
Definition hits (es : list nat) : list nat :=
  match es with
  | [] => []
  | 0 :: es' =>
      0 :: match filter (fun k => 0 <? k) es' with
           | k :: _ => [k]
           | [] => []
           end
  | k :: _ => [k]
  end.

Inductive item : Type :=
| Lit (c : ascii)
| Hit (start stop : nat).

(** The left-to-right scan shared by [finditer], [findall], [sub] and
    [split]: the characters outside every match and the spans of the
    matches, in order.  [skip] counts the characters still inside the last
    match. *)
Fixpoint scan (r : regex) (prev : option ascii) (s : text) (pos skip : nat)
  : list item :=
  match skip with
  | S skip' =>
      match s with
      | c :: s' => scan r (Some c) s' (S pos) skip'
      | [] => []
      end
  | 0 =>
      let hs := hits (ends r prev s) in
      map (fun k => Hit pos (pos + k)) hs ++
      match s with
      | c :: s' =>
          (if last hs 0 =? 0 then [Lit c] else [])
          ++ scan r (Some c) s' (S pos) (pred (last hs 0))
      | [] => []
      end
  end.

Definition slice (s : text) (a b : nat) : text := firstn (b - a) (skipn a s).

Fixpoint spans (its : list item) : list (nat * nat) :=
  match its with
  | [] => []
  | Lit _ :: its' => spans its'
  | Hit a b :: its' => (a, b) :: spans its'
  end.

(** [re.finditer(r, s)], as the [(start, end)] spans of the matches *)
Definition re_finditer (r : regex) (s : text) : list (nat * nat) :=
  spans (scan r None s 0 0).

(** [re.findall(r, s)] for a pattern without groups *)
Definition re_findall (r : regex) (s : text) : list text :=
  map (fun ab => slice s (fst ab) (snd ab)) (re_finditer r s).

(** [re.sub(r, repl, s)] for a replacement without group references *)
Definition re_sub (r : regex) (repl : text) (s : text) : text :=
  flat_map (fun it => match it with Lit c => [c] | Hit _ _ => repl end)
           (scan r None s 0 0).

Fixpoint pieces (its : list item) (cur : text) : list text :=
  match its with
  | [] => [rev cur]
  | Lit c :: its' => pieces its' (c :: cur)
  | Hit _ _ :: its' => rev cur :: pieces its' []
  end.

(** [re.split(r, s)] for a pattern without groups *)
Definition re_split (r : regex) (s : text) : list text :=
  pieces (scan r None s 0 0) [].

Definition one_of (cs : string) : cclass :=
  fun c => existsb (fun d => (code d =? code c)%N) (str cs).

Definition is_newline : cclass := fun c => (code c =? 10)%N.

(** ** [_clean_text] *)

(** [\s+] *)
Definition whitespace_run : regex := Rep is_space 1.

(** The negated class of the second substitution: everything except [\w],
    [\s], the punctuation [. , ! ? ; : - ( ) [ ]] and the double and single
    quote characters (codes 34 and 39). *)
Definition pdf_artifact : regex :=
  Chr (fun c => negb (is_word c || is_space c
                      || one_of ".,!?;:-()[]" c
                      || (code c =? 34)%N || (code c =? 39)%N)).

(** [\b\d+\b(?=\s*$)] under [re.MULTILINE] *)
Definition trailing_number : regex :=
  Cat WordB (Cat (Rep is_digit 1)
                 (Cat WordB (Ahead (Cat (Rep is_space 0) EolM)))).

Definition _clean_text (t : text) : text :=
  let t := re_sub whitespace_run [space] t in
  let t := re_sub pdf_artifact [] t in
  let t := re_sub trailing_number [] t in
  strip t.

(** ** [_extract_sections] *)

Definition not_dot_or_newline : cclass :=
  fun c => negb ((code c =? 46)%N || (code c =? 10)%N).

(** [\n\s*\d+\.\s+[A-Z][^.\n]*] *)
Definition numbered_section : regex :=
  Cat (Chr is_newline)
      (Cat (Rep is_space 0)
           (Cat (Rep is_digit 1)
                (Cat (Chr (one_of "."))
                     (Cat (Rep is_space 1)
                          (Cat (Chr is_upper) (Rep not_dot_or_newline 0)))))).

(** [\n\s*[A-Z][A-Z\s]+:] *)
Definition all_caps_header : regex :=
  Cat (Chr is_newline)
      (Cat (Rep is_space 0)
           (Cat (Chr is_upper)
                (Cat (Rep (fun c => is_upper c || is_space c) 1)
                     (Chr (one_of ":"))))).

(** [\n\s*[A-Z][^.\n]*\n(?=[A-Z])] *)
Definition title_case_header : regex :=
  Cat (Chr is_newline)
      (Cat (Rep is_space 0)
           (Cat (Chr is_upper)
                (Cat (Rep not_dot_or_newline 0)
                     (Cat (Chr is_newline) (Ahead (Chr is_upper)))))).

Definition section_patterns : list regex :=
  [numbered_section; all_caps_header; title_case_header].

Record section : Type := Section_ {
  title : text;
  position : nat
}.

Definition sections_of (t : text) (pattern : regex) : list section :=
  map (fun ab => Section_ (strip (slice t (fst ab) (snd ab))) (fst ab))
      (re_finditer pattern t).

Definition _extract_sections (t : text) : list section :=
  firstn 10 (flat_map (sections_of t) section_patterns).

(** ** [_extract_key_topics] *)

(** [\b[A-Za-z]{4,}\b] *)
Definition topic_word : regex := Cat WordB (Cat (Rep is_alpha 4) WordB).

Definition stop_words : list text :=
  map str
    ["this"; "that"; "with"; "have"; "will"; "from"; "they"; "been"; "were";
     "said"; "each"; "which"; "their"; "time"; "would"; "there"; "could";
     "other"; "after"; "first"; "well"; "also"; "new"; "want"; "because";
     "any"; "these"; "give"; "day"; "most"; "us"; "is"; "are"; "was"; "were";
     "be"; "been"; "being"; "have"; "has"; "had"; "do"; "does"; "did"; "will";
     "would"; "could"; "should"; "may"; "might"; "must"; "can"; "shall"]%string.

Definition mem (w : text) (l : list text) : bool := existsb (text_eqb w) l.

(** [word_freq[word] = word_freq.get(word, 0) + 1] on an insertion-ordered
    dictionary *)
Fixpoint tally (word : text) (d : list (text * Z)) : list (text * Z) :=
  match d with
  | [] => [(word, 1%Z)]
  | (w, n) :: d' =>
      if text_eqb w word then (w, (n + 1)%Z) :: d'
      else (w, n) :: tally word d'
  end.

Definition count_word (word_freq : list (text * Z)) (word : text)
  : list (text * Z) :=
  if negb (mem word stop_words) && (3 <? length word)
  then tally word word_freq else word_freq.

Fixpoint insert_desc (x : text * Z) (l : list (text * Z)) : list (text * Z) :=
  match l with
  | [] => [x]
  | y :: l' =>
      if (snd y <=? snd x)%Z then x :: l else y :: insert_desc x l'
  end.

(** [sorted(items, key=lambda x: x[1], reverse=True)].  Python's sort is
    stable, also under [reverse=True]: items of equal count keep their order.
    That determines the result, which this insertion sort computes. *)
Definition sorted_by_count (items : list (text * Z)) : list (text * Z) :=
  fold_right insert_desc [] items.

Definition topic_words (t : text) : list text :=
  re_findall topic_word (lower t).

Definition _extract_key_topics (t : text) : list (text * Z) :=
  let word_freq := fold_left count_word (topic_words t) [] in
  firstn 10 (sorted_by_count word_freq).

(** ** [_extract_key_points] *)

(** [[.!?]+] *)
Definition sentence_end : regex := Rep (one_of ".!?") 1.

Definition important_words : list text :=
  map str
    ["important"; "key"; "main"; "primary"; "essential"; "critical";
     "significant"; "major"; "core"; "fundamental"]%string.

Fixpoint prefix_of (p s : text) : bool :=
  match p, s with
  | [], _ => true
  | a :: p', b :: s' => (code a =? code b)%N && prefix_of p' s'
  | _ :: _, [] => false
  end.

(** [p in s] *)
Fixpoint contains (p s : text) : bool :=
  prefix_of p s ||
  match s with
  | [] => false
  | _ :: s' => contains p s'
  end.

Definition has_important_word (sentence : text) : bool :=
  existsb (fun word => contains word (lower sentence)) important_words.

Definition good_length (sentence : text) : bool :=
  (20 <? length sentence) && (length sentence <? 100).

Definition key_point_step (key_points : list text) (sentence : text)
  : list text :=
  let sentence := strip sentence in
  if good_length sentence then
    if has_important_word sentence then key_points ++ [sentence]
    else if length key_points <? 5 then key_points ++ [sentence]
    else key_points
  else key_points.

Definition _extract_key_points (original_text summary : text) : list text :=
  let sentences := re_split sentence_end summary in
  firstn 5 (fold_left key_point_step sentences []).

(** ** [_estimate_reading_time] *)

(** [round(q, 1)]: the nearest multiple of one tenth, ties to the even
    one *)
Definition round1 (q : Q) : Q :=
  let n := (Qnum q * 10)%Z in
  let d := Zpos (Qden q) in
  let fl := (n / d)%Z in
  let r := (n mod d)%Z in
  let k := if (2 * r <? d)%Z then fl
           else if (d <? 2 * r)%Z then (fl + 1)%Z
           else if Z.even fl then fl else (fl + 1)%Z in
  Qmake k 10.

Definition word_count_of (t : text) : Z := Z.of_nat (length (str_split t)).

Definition _estimate_reading_time (t : text) : Q :=
  let word_count := word_count_of t in
  round1 (Qdiv (inject_Z word_count) (inject_Z words_per_minute)).

(** ** [PDFExtractor.extract_text]

    The two extraction libraries are parameters: each maps a path to the
    text it finds, the empty string when it fails. *)

Module PDFExtractor.

Definition meaningful (t : text) : bool :=
  negb (is_nil t) && (100 <? len (strip t))%Z.

Definition extract_text (_extract_with_pdfplumber _extract_with_pypdf2
                         : text -> text) (pdf_path : text) : outcome text :=
  let t := _extract_with_pdfplumber pdf_path in
  if meaningful t then Returns t
  else
    let t := _extract_with_pypdf2 pdf_path in
    if meaningful t then Returns t else Raises ExtractionError.

End PDFExtractor.

(** ** The language-model collaborator and the pipeline

    [openai_client.chat.completions.create] is an external service: it is a
    parameter of the pipeline, a function from a request and the state of the
    service to the content of the first choice (or [None] when the call or the
    access to the content raises) and the next state of the service.  The
    pipeline threads that state and records every request it issues. *)

Definition Qltb (a b : Q) : bool := negb (Qle_bool b a).

(** [min(1000, target_word_count * 1.5)] *)
Definition chunk_max_tokens (target_word_count : Z) : Q :=
  let y := Qmult (inject_Z target_word_count) (Qmake 15 10) in
  if Qltb y (inject_Z 1000) then y else inject_Z 1000.

(** A request is given by what the source puts into its prompt and its
    token limit; the fixed wording of the prompts, the model name and the
    sampling parameters are left out. *)
Inductive request : Type :=
| SummarizeRequest (chunk : text) (target_word_count duration_minutes : Z)
                   (max_tokens : Q)
| ShortenRequest (combined_summary : text)
                 (target_word_count duration_minutes : Z) (max_tokens : Z).

Definition is_shorten (rq : request) : bool :=
  match rq with
  | ShortenRequest _ _ _ _ => true
  | SummarizeRequest _ _ _ _ => false
  end.

Record result : Type := Result {
  summary : text;
  key_points : list text;
  key_topics : list (text * Z);
  sections : list section;
  word_count : Z;
  target_word_count : Z;
  estimated_duration_minutes : Q;
  reading_metrics : list (text * Q);
  original_word_count : Z
}.

Definition max_chunk_length : Z := 12000.

(** [len(combined_summary.split()) > target_word_count * 1.2] *)
Definition too_long (combined_summary : text) (target_word_count : Z) : bool :=
  Qltb (Qmult (inject_Z target_word_count) (Qmake 12 10))
       (inject_Z (word_count_of combined_summary)).

Definition no_summary_msg : text :=
  str "Failed to generate summary using OpenAI".

Definition insufficient_text_msg : text :=
  str "Insufficient text extracted from PDF".

Definition not_a_pdf_msg : text := str "File must be a PDF document".

Section Pipeline.

Variable world : Type.
Variable complete : request -> world -> option text * world.

(** [textstat]: the four readability scores, or [None] when it raises *)
Variable textstat : text -> option (list (text * Q)).

Record trace : Type := Trace {
  service : world;
  calls : list request
}.

Definition M (A : Type) : Type := trace -> outcome A * trace.

Definition ret {A} (a : A) : M A := fun tr => (Returns a, tr).

Definition raise {A} (e : exn) : M A := fun tr => (Raises e, tr).

Definition bind {A B} (m : M A) (f : A -> M B) : M B :=
  fun tr =>
    match m tr with
    | (Returns a, tr') => f a tr'
    | (Raises e, tr') => (Raises e, tr')
    end.

Definition lift {A} (o : outcome A) : M A := fun tr => (o, tr).

(** One request to the model; the content of the answer is returned. *)
Definition chat_completions_create (rq : request) : M text :=
  fun tr =>
    let (answer, w) := complete rq (service tr) in
    let tr' := Trace w (calls tr ++ [rq]) in
    match answer with
    | Some content => (Returns content, tr')
    | None => (Raises APIError, tr')
    end.

(** The loop over the chunks of [_create_openai_summary] *)
Fixpoint summarize_chunks (chunks : list text)
         (target_word_count duration_minutes : Z) (summaries : list text)
  : M (list text) :=
  match chunks with
  | [] => ret summaries
  | chunk :: rest =>
      bind (chat_completions_create
              (SummarizeRequest chunk target_word_count duration_minutes
                                (chunk_max_tokens target_word_count)))
           (fun content =>
              summarize_chunks rest target_word_count duration_minutes
                               (summaries ++ [strip content]))
  end.

Definition _create_openai_summary (t : text)
           (target_word_count duration_minutes : Z) : M text :=
  let chunks := _split_text_into_chunks t max_chunk_length in
  bind (summarize_chunks chunks target_word_count duration_minutes [])
       (fun summaries =>
          let combined_summary := str_join [space] summaries in
          if too_long combined_summary target_word_count then
            bind (chat_completions_create
                    (ShortenRequest combined_summary target_word_count
                                    duration_minutes
                                    (target_word_count + 200)%Z))
                 (fun content => ret (strip content))
          else ret combined_summary).

Definition _calculate_reading_metrics (t : text) : list (text * Q) :=
  match textstat t with
  | Some scores => scores
  | None => []
  end.

Definition summarize_for_video (t : text) (target_duration_minutes : Z)
  : M result :=
  let cleaned_text := _clean_text t in
  bind (lift (_calculate_target_word_count target_duration_minutes))
       (fun target_word_count =>
  let sections := _extract_sections cleaned_text in
  let key_topics := _extract_key_topics cleaned_text in
  bind (_create_openai_summary cleaned_text target_word_count
                               target_duration_minutes)
       (fun summary =>
  if is_nil summary then raise (ValueError no_summary_msg)
  else
    let key_points := _extract_key_points cleaned_text summary in
    let reading_metrics := _calculate_reading_metrics summary in
    ret (Result summary key_points key_topics sections
                (word_count_of summary) target_word_count
                (_estimate_reading_time summary) reading_metrics
                (word_count_of t)))).

(** *** [SummaryTool.process_pdf]

    The file system and the PDF extractor are parameters; the metadata
    added to the result and the optional saving are left out. *)

Variable path_exists : text -> bool.
Variable extract_text : text -> outcome text.

Definition ends_with (suffix s : text) : bool :=
  prefix_of (rev suffix) (rev s).

Definition process_pdf (pdf_path : text) (duration_minutes : Z) : M result :=
  if negb (path_exists pdf_path) then raise FileNotFoundError
  else if negb (ends_with (str ".pdf") (lower pdf_path))
  then raise (ValueError not_a_pdf_msg)
  else
    bind (lift (extract_text pdf_path))
         (fun extracted_text =>
            if is_nil extracted_text
               || (len (strip extracted_text) <? 100)%Z
            then raise (ValueError insufficient_text_msg)
            else summarize_for_video extracted_text duration_minutes).

End Pipeline.

(** A stub model that answers every request with the same content. *)
Definition stub_model (content : text) (rq : request) (w : unit)
  : option text * unit := (Some content, w).

Definition no_textstat (t : text) : option (list (text * Q)) := None.

(** ** Predicates of the specification *)

Definition token (w : text) : Prop :=
  w <> [] /\ Forall (fun c => is_space c = false) w.

(** The state of the loop after the words [done]: the closed chunks are the
    joined groups of a grouping of a prefix of [done], and the open chunk is
    the rest of [done]. *)
Definition chunk_inv (done : list text) (st : chunker) : Prop :=
  exists gs : list (list text),
    Forall (fun g => g <> []) gs
    /\ chunks st = map (str_join [space]) gs
    /\ concat gs ++ current_chunk st = done.

(** C8, as the specification states it, at a text and a chunk size. *)
Definition nonempty_text_has_chunk (t : text) (max_length : Z) : Prop :=
  t <> [] -> (0 < max_length)%Z ->
  1 <= length (_split_text_into_chunks t max_length).

(** C3, as the specification states it, at a duration. *)
Definition rejects_non_positive (duration_minutes : Z) : Prop :=
  (duration_minutes <= 0)%Z ->
  exists e, _calculate_target_word_count duration_minutes = Raises e.



(** The cursor of a scan of [s0] that stands at [pos]: the rest of the text
    and the character before it. *)
Definition cursor (s0 : text) (pos : nat) (prev : option ascii) (s : text)
  : Prop :=
  s = skipn pos s0 /\ prev = prev_at None s0 pos.

(** A span is a match of [r] in [s0]: the matcher, started at the beginning
    of the span, can stop at its end. *)
Definition genuine (r : regex) (s0 : text) (ab : nat * nat) : Prop :=
  fst ab <= snd ab
  /\ In (snd ab - fst ab)
        (ends r (prev_at None s0 (fst ab)) (skipn (fst ab) s0)).

(** Spans in scan order: each one ends before the next one starts. *)
Definition disjoint_ordered (sp : list (nat * nat)) : Prop :=
  StronglySorted (fun x y => snd x <= fst y) sp.

(** C6, as the specification states it, on a list of sections: the
    positions never decrease along the list. *)
Definition in_document_order (ss : list section) : Prop :=
  forall (i j : nat) (a b : section),
    i < j -> nth_error ss i = Some a -> nth_error ss j = Some b ->
    position a <= position b.

(** An all-caps header followed by a numbered heading, each on a line of its
    own. *)
Definition caps_then_numbered : text :=
  newline :: str "ABC DEF:" ++ newline :: str "1. Intro here".

Definition no_newline (s : text) : Prop :=
  Forall (fun c => is_newline c = false) s.

Definition text_dec : forall a b : text, {a = b} + {a <> b} :=
  list_eq_dec ascii_dec.

(** The index of the first occurrence of [w] in [ws] (the length of [ws]
    when there is none). *)
Fixpoint first_index (w : text) (ws : list text) : nat :=
  match ws with
  | [] => 0
  | x :: ws' => if text_dec x w then 0 else S (first_index w ws')
  end.

Definition occurrences (w : text) (ws : list text) : Z :=
  Z.of_nat (count_occ text_dec ws w).

(** [x] is ranked before [y]: a greater count, or the same count and an
    earlier first occurrence among the words [ws]. *)
Definition ranks_before (ws : list text) (x y : text * Z) : Prop :=
  (snd y < snd x)%Z
  \/ (snd x = snd y /\ first_index (fst x) ws < first_index (fst y) ws).

(** The test of the counting loop *)
Definition counted (w : text) : bool :=
  negb (mem w stop_words) && (3 <? length w).

(** The words that are counted: the topic words that are not stop words. *)
Definition counted_words (t : text) : list text :=
  filter (fun w => negb (mem w stop_words)) (topic_words t).

(** The dictionary [d] after the counted words [done]: its keys are the
    distinct words of [done] in the order of their first occurrences, each
    with its number of occurrences. *)
Definition tally_inv (done : list text) (d : list (text * Z)) : Prop :=
  StronglySorted (fun a b => first_index a done < first_index b done)
                 (map fst d)
  /\ (forall w, In w done <-> In w (map fst d))
  /\ (forall w n, In (w, n) d -> n = occurrences w done).

(** The request sent for one chunk *)
Definition chunk_request (target_word_count duration_minutes : Z)
           (chunk : text) : request :=
  SummarizeRequest chunk target_word_count duration_minutes
                   (chunk_max_tokens target_word_count).

(** The requests of a run whose chunk summaries are [summaries]: one per
    chunk, in order, then the Shorten request when the combined summary is
    too long. *)
Definition expected_requests (chunks summaries : list text)
           (target_word_count duration_minutes : Z) : list request :=
  let combined_summary := str_join [space] summaries in
  map (chunk_request target_word_count duration_minutes) chunks
  ++ (if too_long combined_summary target_word_count
      then [ShortenRequest combined_summary target_word_count
                           duration_minutes (target_word_count + 200)%Z]
      else []).

(** A text of 50 characters *)
Definition fifty_characters : text :=
  str "The quick brown fox jumps over the lazy dog today.".


(** A document with a numbered heading on a line of its own *)
Definition sample_document : text :=
  str "Overview of the study" ++ newline
  :: str "1. Methods and data" ++ newline
  :: str "The main finding is reported in the second part of the text.".

(** The state of the model service before the first request *)
Definition fresh : trace unit := Trace tt [].

(** ** Further predicates *)

(** A chunk respects the limit, or it is one token that no chunk could
    hold together with another one. *)
Definition chunk_fits (max_length : Z) (c : text) : Prop :=
  (len c <= max_length)%Z \/ str_split c = [c].

(** The bookkeeping of the chunker: the closed chunks fit, the open chunk is
    made of tokens, its joined length is at most the running length, and the
    running length respects the limit as soon as the open chunk has two
    words. *)
Definition chunk_bound_inv (max_length : Z) (st : chunker) : Prop :=
  Forall (chunk_fits max_length) (chunks st)
  /\ Forall token (current_chunk st)
  /\ (len (str_join [space] (current_chunk st)) <= current_length st)%Z
  /\ (1 < length (current_chunk st) -> (current_length st <= max_length)%Z).

(** The characters of a scan that lie outside every match *)
Fixpoint lits (its : list item) : text :=
  match its with
  | [] => []
  | Lit c :: its' => c :: lits its'
  | Hit _ _ :: its' => lits its'
  end.

(** The characters that [_clean_text] keeps: the word characters, the plain
    space and the listed punctuation. *)
Definition kept_char (c : ascii) : bool :=
  is_word c || (code c =? 32)%N || one_of ".,!?;:-()[]" c
  || (code c =? 34)%N || (code c =? 39)%N.

(** A text that neither starts nor ends with whitespace *)
Definition trimmed (s : text) : Prop :=
  (forall c, hd_error s = Some c -> is_space c = false)
  /\ (forall c, hd_error (rev s) = Some c -> is_space c = false).

(** A model whose every request fails *)
Definition failing_model (rq : request) (w : unit) : option text * unit :=
  (None, w).

(** A text of 155 one-letter words *)
Definition one_minute_of_words : text := concat (repeat (str "w ") 155).

(** ** [utils.py] *)

Module Utils.

(** The class of the first substitution of [clean_filename]: the
    characters [< > : / \ | ? *] and the double quote (code 34). *)
Definition invalid_char : cclass :=
  fun c => one_of "<>:/\|?*" c || (code c =? 34)%N.

Fixpoint lstrip_chars (chars : cclass) (s : text) : text :=
  match s with
  | c :: s' => if chars c then lstrip_chars chars s' else s
  | [] => []
  end.

(** [s.strip(chars)] *)
Definition strip_chars (chars : cclass) (s : text) : text :=
  rev (lstrip_chars chars (rev (lstrip_chars chars s))).

Definition clean_filename (filename : text) : text :=
  let cleaned := re_sub (Chr invalid_char) (str "_") filename in
  let cleaned := re_sub whitespace_run (str "_") cleaned in
  let cleaned := strip_chars (one_of "._") cleaned in
  if is_nil cleaned then str "unnamed_file" else cleaned.

(** [s[:n]]: a negative [n] counts from the end. *)
Definition slice_to (s : text) (n : Z) : text :=
  if (n <? 0)%Z then firstn (Z.to_nat (len s + n)) s
  else firstn (Z.to_nat n) s.

Definition truncate_text (t : text) (max_length : Z) (suffix : text) : text :=
  if (len t <=? max_length)%Z then t
  else slice_to t (max_length - len suffix) ++ suffix.

End Utils.

(** A file name is clean: it is not empty, it has no invalid character and
    no whitespace, and it neither starts nor ends with a dot or an
    underscore. *)
Definition clean_name (s : text) : Prop :=
  s <> []
  /\ Forall (fun c => Utils.invalid_char c = false /\ is_space c = false) s
  /\ (forall c, hd_error s = Some c -> one_of "._" c = false)
  /\ (forall c, hd_error (rev s) = Some c -> one_of "._" c = false).

(** Every group of words but the last is full: together with a separator
    and the first word of the next group it would reach the limit. *)
Definition adjacent_full (max_length : Z) (gs : list (list text)) : Prop :=
  forall (i : nat) (g h : list text),
    nth_error gs i = Some g -> nth_error gs (S i) = Some h ->
    (max_length <= len (str_join [space] g) + 1 + len (hd [] h))%Z.

(** The state of the chunker with the groups of words behind its chunks *)
Definition chunk_full_inv (max_length : Z) (st : chunker) : Prop :=
  exists gs : list (list text),
    chunks st = map (str_join [space]) gs
    /\ Forall (Forall token) gs
    /\ Forall token (current_chunk st)
    /\ (current_length st <= len (str_join [space] (current_chunk st)) + 1)%Z
    /\ (current_chunk st = [] -> gs = [] /\ current_length st = 0%Z)
    /\ adjacent_full max_length (gs ++ [current_chunk st]).

(** ** [voice_generator.py] *)

Module VoiceGenerator.

(** [s.split(sep)] for a separator that is not empty: [cur] holds the piece
    being read, reversed, and [skip] counts the characters of a separator
    that are still to pass. *)
Fixpoint split_at (sep s cur : text) (skip : nat) : list text :=
  match s with
  | [] => [rev cur]
  | c :: s' =>
      match skip with
      | S k => split_at sep s' cur k
      | 0 =>
          if prefix_of sep s
          then rev cur :: split_at sep s' [] (length sep - 1)
          else split_at sep s' (c :: cur) 0
      end
  end.

Definition blank_line : text := [newline; newline].

(** [[p.strip() for p in text.split('\n\n') if p.strip()]] *)
Definition paragraphs_of (t : text) : list text :=
  map strip
      (filter (fun p => negb (is_nil (strip p))) (split_at blank_line t [] 0)).

Definition close_section (sections : list text) (current_section : text)
  : list text :=
  if is_nil current_section then sections
  else sections ++ [strip current_section].

Definition section_step (st : list text * text) (paragraph : text)
  : list text * text :=
  let (sections, current_section) := st in
  if length (current_section ++ paragraph) <? 800
  then (sections, current_section ++ paragraph ++ [space])
  else (close_section sections current_section, paragraph ++ [space]).

Definition _extract_text_sections (t : text) : list text :=
  let (sections, current_section) :=
    fold_left section_step (paragraphs_of t) ([], []) in
  close_section sections current_section.

End VoiceGenerator.

(** A paragraph as the loop of [_extract_text_sections] receives it *)
Definition paragraph_like (p : text) : Prop := p <> [] /\ trimmed p.

(** What the loop of [_extract_text_sections] keeps about the open section:
    it is empty, or a body followed by one space, the body being shorter
    than 800 characters or a single paragraph. *)
Definition open_section_ok (paragraphs : list text) (current_section : text)
  : Prop :=
  current_section = []
  \/ exists body : text,
       current_section = body ++ [space]
       /\ (exists c, In c body /\ is_space c = false)
       /\ (length body < 800 \/ In body paragraphs).

Definition section_ok (paragraphs : list text) (s : text) : Prop :=
  s <> [] /\ trimmed s /\ (length s < 800 \/ In s paragraphs).

(** The tokens held by a state of the loop of [_extract_text_sections] *)
Definition section_tokens (st : list text * text) : list text :=
  concat (map str_split (fst st)) ++ str_split (snd st).

(** The open section is empty or ends with the space that the loop adds. *)
Definition ends_spaced (current_section : text) : Prop :=
  current_section = [] \/ exists body, current_section = body ++ [space].

(** A document of 3000 words, 15000 characters: two chunks *)
Definition long_document : text := concat (repeat (str "word ") 3000).


(** * Properties *)

(** ** The embedding on small inputs *)

Example split_on_whitespace :
  str_split (str "  hello  world foo ") = map str ["hello"; "world"; "foo"]%string.
Proof. reflexivity. Qed.

Example strip_both_ends : strip (str "  a b  ") = str "a b".
Proof. reflexivity. Qed.

(** With at most 7 characters per chunk the long word gets a chunk of its
    own. *)
Example chunks_of_seven :
  _split_text_into_chunks (str "aaa bbb ccc ddddddddddd e f") 7
  = map str ["aaa"; "bbb ccc"; "ddddddddddd"; "e f"]%string.
Proof. vm_compute. reflexivity. Qed.

Example split_sentences :
  re_split sentence_end (str "a.b!?c.") = map str ["a"; "b"; "c"; ""]%string.
Proof. vm_compute. reflexivity. Qed.

(** Cleaning joins the lines, drops the characters outside the kept classes
    and the number at the end. *)
Example clean_two_lines :
  _clean_text (str "Hello,   world" ++ newline :: str "1. Intro #x 12 ")
  = str "Hello, world 1. Intro x".
Proof. vm_compute. reflexivity. Qed.

Example sections_of_three_headings :
  _extract_sections
    (newline :: str "ABC DEF:" ++ newline :: str "1. Intro here"
             ++ newline :: str "Title Case" ++ newline :: str "Next")
  = [Section_ (str "1. Intro here") 9; Section_ (str "ABC DEF:") 0;
     Section_ (str "Title Case") 23].
Proof. vm_compute. reflexivity. Qed.

(** [deep] and [machine] both occur twice; [deep] occurs first. *)
Example topics_with_a_tie :
  _extract_key_topics
    (str "Deep zeta machine Learning machine learning deep learning alpha this that abcd1 x_abcd")
  = [(str "learning", 3%Z); (str "deep", 2%Z); (str "machine", 2%Z);
     (str "zeta", 1%Z); (str "alpha", 1%Z)].
Proof. vm_compute. reflexivity. Qed.

Example reading_time_of_26_words :
  _estimate_reading_time (str "a b c d e f g h i j k l m n o p q r s t u v w x y z")
  = Qmake 2 10.
Proof. vm_compute. reflexivity. Qed.

(** ** Whitespace tokens *)

Lemma str_split_tokens (s : text) : Forall token (str_split s).
Proof.
  induction s as [|c s IH]; simpl; [constructor|].
  destruct (is_space c) eqn:Hc; [exact IH|].
  destruct (starts_word s).
  - destruct (str_split s) as [|w ws].
    + repeat constructor; [discriminate | exact Hc].
    + inversion IH as [|? ? [_ Hw] Hws]; subst.
      constructor; [split; [discriminate | constructor; assumption] | assumption].
  - constructor; [split; [discriminate | repeat constructor; exact Hc] | exact IH].
Qed.

Lemma str_split_token_then_space (w r : text) :
  token w -> str_split (w ++ space :: r) = w :: str_split r.
Proof.
  intros [Hne Hall]. induction Hall as [|c w Hc Hall IH]; [congruence|].
  simpl. rewrite Hc.
  destruct w as [|d w'].
  - reflexivity.
  - assert (Hd : is_space d = false) by now inversion Hall.
    change (starts_word ((d :: w') ++ space :: r)) with (negb (is_space d)).
    rewrite Hd. simpl negb. cbv iota.
    now rewrite IH by discriminate.
Qed.

Lemma str_split_token (w : text) : token w -> str_split w = [w].
Proof.
  intros [Hne Hall]. induction Hall as [|c w Hc Hall IH]; [congruence|].
  simpl. rewrite Hc.
  destruct w as [|d w']; [reflexivity|].
  assert (Hd : is_space d = false) by now inversion Hall.
  change (starts_word (d :: w')) with (negb (is_space d)).
  rewrite Hd. simpl negb. cbv iota.
  now rewrite IH by discriminate.
Qed.

Lemma str_join_cons (sep w : text) (ws : list text) :
  ws <> [] -> str_join sep (w :: ws) = w ++ sep ++ str_join sep ws.
Proof. destruct ws; [congruence | reflexivity]. Qed.

Lemma str_split_join (ws : list text) :
  Forall token ws -> str_split (str_join [space] ws) = ws.
Proof.
  induction 1 as [|w ws Hw Hws IH]; [reflexivity|].
  destruct ws as [|v ws'].
  - now apply str_split_token.
  - rewrite str_join_cons by discriminate.
    change ([space] ++ str_join [space] (v :: ws'))
      with (space :: str_join [space] (v :: ws')).
    rewrite str_split_token_then_space by assumption.
    now rewrite IH.
Qed.

Lemma str_join_app (sep : text) (a b : list text) :
  a <> [] -> b <> [] ->
  str_join sep (a ++ b) = str_join sep a ++ sep ++ str_join sep b.
Proof.
  intros Ha Hb. induction a as [|w a IH]; [congruence|].
  destruct a as [|v a'].
  - simpl app. now rewrite str_join_cons.
  - change ((w :: v :: a') ++ b) with (w :: ((v :: a') ++ b)).
    rewrite !str_join_cons by (try discriminate; destruct b; discriminate).
    rewrite IH by discriminate. now rewrite <- !app_assoc.
Qed.

Lemma str_join_groups (sep : text) (gs : list (list text)) :
  Forall (fun g => g <> []) gs ->
  str_join sep (map (str_join sep) gs) = str_join sep (concat gs).
Proof.
  induction 1 as [|g gs Hg Hgs IH]; [reflexivity|].
  destruct gs as [|h gs'].
  - simpl. now rewrite app_nil_r.
  - simpl map. rewrite str_join_cons by discriminate.
    change (map (str_join sep) (h :: gs')) with
      (str_join sep h :: map (str_join sep) gs') in IH.
    rewrite IH.
    change (concat (g :: h :: gs')) with (g ++ concat (h :: gs')).
    rewrite str_join_app; trivial.
    inversion Hgs; subst. destruct h; [congruence | discriminate].
Qed.

Lemma str_split_nil_iff (s : text) :
  str_split s = [] <-> forallb is_space s = true.
Proof.
  induction s as [|c s IH]; simpl; [tauto|].
  destruct (is_space c); simpl; [exact IH|].
  split; [|discriminate].
  destruct (starts_word s); [destruct (str_split s)|]; discriminate.
Qed.

(** ** The chunker *)

Lemma chunk_step_inv (max_length : Z) (done : list text) (st : chunker)
      (word : text) :
  chunk_inv done st -> chunk_inv (done ++ [word]) (chunk_step max_length st word).
Proof.
  intros (gs & Hne & Hch & Hcat). unfold chunk_step.
  destruct (current_chunk st) as [|w cur] eqn:Hcur.
  - rewrite andb_false_r. exists gs. simpl.
    repeat split; trivial. now rewrite <- Hcat, app_nil_r.
  - destruct (_ >? _)%Z; simpl.
    + exists (gs ++ [w :: cur]). repeat split.
      * apply Forall_app. split; [assumption | repeat constructor; discriminate].
      * rewrite Hch, map_app. reflexivity.
      * rewrite concat_app. simpl. rewrite app_nil_r. now rewrite Hcat.
    + exists gs. repeat split; trivial.
      rewrite <- Hcat. now rewrite <- app_assoc.
Qed.

Lemma chunk_loop_inv (max_length : Z) (ws done : list text) (st : chunker) :
  chunk_inv done st ->
  chunk_inv (done ++ ws) (fold_left (chunk_step max_length) ws st).
Proof.
  revert done st. induction ws as [|w ws IH]; intros done st H; simpl.
  - now rewrite app_nil_r.
  - replace (done ++ w :: ws) with ((done ++ [w]) ++ ws)
      by now rewrite <- app_assoc.
    apply IH. now apply chunk_step_inv.
Qed.

Lemma chunk_groups (t : text) (max_length : Z) :
  exists gs : list (list text),
    Forall (fun g => g <> []) gs
    /\ _split_text_into_chunks t max_length = map (str_join [space]) gs
    /\ concat gs = str_split t.
Proof.
  unfold _split_text_into_chunks.
  destruct (chunk_loop_inv max_length (str_split t) (done := []) (st := Chunker [] [] 0%Z))
    as (gs & Hne & Hch & Hcat).
  { exists []. repeat split. constructor. }
  simpl in Hcat. unfold chunk_flush.
  destruct (current_chunk _) as [|w cur] eqn:Hcur; simpl.
  - exists gs. rewrite app_nil_r in Hcat. auto.
  - exists (gs ++ [w :: cur]). repeat split.
    + apply Forall_app. split; [assumption | repeat constructor; discriminate].
    + now rewrite Hch, map_app.
    + rewrite concat_app. simpl. now rewrite app_nil_r.
Qed.

Lemma Forall_concat_inv {A} (P : A -> Prop) (gs : list (list A)) :
  Forall P (concat gs) -> Forall (Forall P) gs.
Proof.
  induction gs as [|g gs IH]; simpl; intros H; constructor.
  - now apply Forall_app in H.
  - apply IH. now apply Forall_app in H.
Qed.

(** C4.  Whatever the text and the chunk size, the chunks joined with single
    spaces have the tokens of the text: the tokens of the chunks, taken chunk
    after chunk, are the tokens of the text in their order, and every chunk is
    a non-empty run of whole tokens separated by single spaces. *)
Theorem chunks_rejoin_tokens (t : text) (max_length : Z) :
  let cs := _split_text_into_chunks t max_length in
  str_split (str_join [space] cs) = str_split t
  /\ concat (map str_split cs) = str_split t
  /\ Forall (fun c => c <> [] /\ str_join [space] (str_split c) = c) cs.
Proof.
  destruct (chunk_groups t max_length) as (gs & Hne & Hcs & Hcat).
  cbv zeta. rewrite Hcs.
  assert (Htok : Forall (Forall token) gs).
  { apply Forall_concat_inv. rewrite Hcat. apply str_split_tokens. }
  assert (Hsplit : map str_split (map (str_join [space]) gs) = gs).
  { clear Hcs Hcat Hne. induction Htok as [|g gs Hg _ IH]; simpl; [reflexivity|].
    now rewrite IH, str_split_join. }
  split; [|split].
  - rewrite str_join_groups by assumption.
    rewrite str_split_join; [assumption|].
    rewrite Hcat. apply str_split_tokens.
  - now rewrite Hsplit.
  - apply Forall_forall. intros c Hc. apply in_map_iff in Hc.
    destruct Hc as (g & <- & Hg).
    rewrite Forall_forall in Htok, Hne.
    rewrite (str_split_join (Htok g Hg)). split; [|reflexivity].
    specialize (Hne g Hg). specialize (Htok g Hg).
    destruct g as [|w g']; [congruence|].
    inversion Htok as [|? ? [Hw _] _]; subst.
    destruct g'; simpl; destruct w; try congruence; discriminate.
Qed.

(** C8 fails on a text made of a single space: it is not the empty string and
    it has no chunk. *)
Lemma blank_text_has_no_chunk : ~ nonempty_text_has_chunk (str " ") 12000.
Proof.
  unfold nonempty_text_has_chunk. intros H.
  assert (Hlen : 1 <= length (_split_text_into_chunks (str " ") 12000))
    by (apply H; [discriminate | reflexivity]).
  vm_compute in Hlen. lia.
Qed.

(** C8, amended.  The chunker produces no chunk exactly when the text has no
    token, that is when every character of it is whitespace (the empty string
    included); any text with a non-whitespace character has at least one
    chunk. *)
Theorem no_chunk_iff_blank (t : text) (max_length : Z) :
  (_split_text_into_chunks t max_length = [] <-> forallb is_space t = true)
  /\ (1 <= length (_split_text_into_chunks t max_length)
      <-> exists c, In c t /\ is_space c = false).
Proof.
  destruct (chunk_groups t max_length) as (gs & Hne & Hcs & Hcat).
  assert (Hnil : _split_text_into_chunks t max_length = [] <->
                 forallb is_space t = true).
  { rewrite <- str_split_nil_iff, <- Hcat, Hcs. split.
    - intros H. now destruct gs.
    - intros H. destruct gs as [|g gs']; [reflexivity|].
      inversion Hne; subst. destruct g; [congruence | discriminate]. }
  split; [exact Hnil|].
  split.
  - intros Hlen.
    assert (Hall : forallb is_space t <> true).
    { intros Hall. apply Hnil in Hall. rewrite Hall in Hlen. simpl in Hlen. lia. }
    clear -Hall. induction t as [|c t IH]; [now elim Hall|].
    simpl in Hall. destruct (is_space c) eqn:Hc.
    + destruct (IH Hall) as (d & Hd & Hsp). exists d. split; [now right | exact Hsp].
    + exists c. split; [now left | exact Hc].
  - intros (c & Hin & Hc).
    assert (Hch : _split_text_into_chunks t max_length <> []).
    { intros Hch. apply Hnil in Hch. rewrite forallb_forall in Hch.
      rewrite (Hch c Hin) in Hc. discriminate. }
    destruct (_split_text_into_chunks t max_length); [congruence | simpl; lia].
Qed.

(** ** The word budget *)

(** C3 fails at duration 0: the call returns 0. *)
Lemma zero_duration_returns : ~ rejects_non_positive 0.
Proof.
  intros H. destruct (H (Z.le_refl 0)) as [e He]. discriminate He.
Qed.

(** C3, amended.  The budget is [duration_minutes * 155] for every duration,
    positive or not, and the call never raises; 15 minutes give 2325 words. *)
Theorem target_word_count_total (duration_minutes : Z) :
  _calculate_target_word_count duration_minutes
  = Returns (duration_minutes * 155)%Z
  /\ _calculate_target_word_count 15 = Returns 2325%Z.
Proof. split; reflexivity. Qed.

(** ** Key points *)

Lemma firstn_app_full {A} (n : nat) (l l' : list A) :
  n <= length l -> firstn n (l ++ l') = firstn n l.
Proof.
  intros H. rewrite firstn_app.
  replace (n - length l) with 0 by lia. simpl. apply app_nil_r.
Qed.

Lemma key_point_loop (sentences acc : list text) :
  firstn 5 (fold_left key_point_step sentences acc)
  = firstn 5 (acc ++ filter good_length (map strip sentences)).
Proof.
  revert acc. induction sentences as [|s ss IH]; intros acc;
    cbn [fold_left map filter].
  - now rewrite app_nil_r.
  - rewrite IH. unfold key_point_step.
    destruct (good_length (strip s)); [|reflexivity].
    destruct (has_important_word (strip s)).
    + now rewrite <- app_assoc.
    + destruct (length acc <? 5) eqn:Hlen.
      * now rewrite <- app_assoc.
      * apply Nat.ltb_ge in Hlen. now rewrite !firstn_app_full.
Qed.



(** ** The scan of a regular expression *)

Lemma hits_cases (es : list nat) :
  hits es = []
  \/ (exists k, hits es = [k] /\ In k es)
  \/ (exists k, hits es = [0; S k] /\ In 0 es /\ In (S k) es).
Proof.
  destruct es as [|[|k] es']; simpl; auto.
  - destruct (filter _ es') as [|k l] eqn:Hf.
    + right; left. exists 0. auto.
    + right; right.
      assert (Hk : In k (filter (fun k => 0 <? k) es')) by (rewrite Hf; now left).
      apply filter_In in Hk. destruct Hk as [Hin Hpos].
      destruct k; [discriminate|]. exists k. auto.
  - right; left. exists (S k). auto.
Qed.

Lemma spans_app (a b : list item) : spans (a ++ b) = spans a ++ spans b.
Proof.
  induction a as [|[c|x y] a IH]; simpl; [reflexivity | exact IH | now rewrite IH].
Qed.

Lemma spans_hits (pos : nat) (hs : list nat) :
  spans (map (fun k => Hit pos (pos + k)) hs)
  = map (fun k => (pos, pos + k)) hs.
Proof. induction hs; simpl; congruence. Qed.

Lemma cursor_start (s0 : text) : cursor s0 0 None s0.
Proof. split; reflexivity. Qed.

Lemma skipn_cons_inv {A} (pos : nat) (s0 s' : list A) (c : A) :
  c :: s' = skipn pos s0 -> s' = skipn (S pos) s0 /\ nth_error s0 pos = Some c.
Proof.
  revert s0. induction pos as [|pos IH]; intros [|d s0] H; simpl in *;
    try discriminate.
  - inversion H; auto.
  - now apply IH.
Qed.

Lemma cursor_next (s0 : text) (pos : nat) (prev : option ascii) (c : ascii)
      (s' : text) :
  cursor s0 pos prev (c :: s') -> cursor s0 (S pos) (Some c) s'.
Proof.
  intros [Hs _]. apply skipn_cons_inv in Hs. destruct Hs as [Hs Hn].
  split; [exact Hs | simpl; now rewrite Hn].
Qed.

Section Scan.

Variable r : regex.
Variable s0 : text.

Let after (n : nat) (ab : nat * nat) : Prop :=
  n <= fst ab /\ genuine r s0 ab.

Lemma after_weaken (n m : nat) (sp : list (nat * nat)) :
  n <= m -> Forall (after m) sp -> Forall (after n) sp.
Proof.
  intros Hnm. apply Forall_impl. intros ab [H1 H2]. split; [lia | exact H2].
Qed.

Lemma genuine_here (pos k : nat) (prev : option ascii) (s : text) :
  cursor s0 pos prev s -> In k (ends r prev s) -> after pos (pos, pos + k).
Proof.
  intros [Hs Hp] Hk. split; [simpl; lia|]. split; [simpl; lia|].
  simpl. replace (pos + k - pos) with k by lia. now rewrite <- Hs, <- Hp.
Qed.

(** The spans found at one position, followed by the spans found later. *)
Lemma spans_here (pos : nat) (prev : option ascii) (s : text)
      (later : list (nat * nat)) :
  cursor s0 pos prev s ->
  let hs := hits (ends r prev s) in
  Forall (after (pos + last hs 0)) later ->
  disjoint_ordered later ->
  Forall (after pos) (map (fun k => (pos, pos + k)) hs ++ later)
  /\ disjoint_ordered (map (fun k => (pos, pos + k)) hs ++ later).
Proof.
  intros Hcur hs Hlater Hsorted.
  assert (Hfrom : forall k, k <= last hs 0 ->
                  Forall (fun y => snd (pos, pos + k) <= fst y) later).
  { intros k Hk. eapply Forall_impl; [|exact Hlater].
    intros ab [H1 _]. simpl. lia. }
  subst hs.
  destruct (hits_cases (ends r prev s))
    as [E | [(k & E & Hk) | (k & E & H0 & Hk)]]; rewrite E in *; simpl in *.
  - split; [|exact Hsorted]. eapply after_weaken; [|exact Hlater]. lia.
  - split.
    + constructor; [now apply (genuine_here _ Hcur)|].
      eapply after_weaken; [|exact Hlater]. lia.
    + constructor; [exact Hsorted | apply (Hfrom k); lia].
  - split.
    + constructor; [now apply (genuine_here _ Hcur)|].
      constructor; [now apply (genuine_here _ Hcur)|].
      eapply after_weaken; [|exact Hlater]. lia.
    + constructor; [constructor|].
      * exact Hsorted.
      * apply (Hfrom (S k)); lia.
      * constructor; [simpl; lia|].
        eapply Forall_impl; [|exact (Hfrom (S k) (Nat.le_refl _))].
        intros ab. simpl. lia.
Qed.

Lemma scan_spans (s : text) :
  forall (prev : option ascii) (pos skip : nat),
    cursor s0 pos prev s ->
    Forall (after (pos + skip)) (spans (scan r prev s pos skip))
    /\ disjoint_ordered (spans (scan r prev s pos skip)).
Proof.
  induction s as [|c s' IH]; intros prev pos skip Hcur.
  - destruct skip as [|skip]; simpl.
    + rewrite app_nil_r, spans_hits.
      rewrite <- (app_nil_r (map _ _)), Nat.add_0_r.
      apply (spans_here Hcur); constructor.
    + split; constructor.
  - destruct skip as [|skip].
    + cbn [scan]. rewrite spans_app, spans_hits, spans_app, Nat.add_0_r.
      set (hs := hits (ends r prev (c :: s'))).
      destruct (IH (Some c) (S pos) (pred (last hs 0)) (cursor_next Hcur))
        as [Hafter Hsorted].
      assert (Hlit : spans (if last hs 0 =? 0 then [Lit c] else []) = [])
        by now destruct (last hs 0 =? 0).
      rewrite Hlit. cbn [app].
      apply (spans_here Hcur); [|exact Hsorted].
      eapply after_weaken; [|exact Hafter]. fold hs. lia.
    + cbn [scan].
      destruct (IH (Some c) (S pos) skip (cursor_next Hcur)) as [Hafter Hsorted].
      split; [|exact Hsorted].
      eapply after_weaken; [|exact Hafter]. lia.
Qed.

(** [re.finditer] yields genuine matches, from left to right, without
    overlap. *)
Lemma finditer_spans :
  Forall (genuine r s0) (re_finditer r s0)
  /\ disjoint_ordered (re_finditer r s0).
Proof.
  destruct (@scan_spans s0 None 0 0 (cursor_start s0)) as [Hafter Hsorted].
  split; [|exact Hsorted].
  eapply Forall_impl; [|exact Hafter]. now intros ab [_ H].
Qed.

End Scan.

(** ** Sections *)

Lemma ends_newline_first (b : regex) (prev : option ascii) (s : text) (k : nat) :
  In k (ends (Cat (Chr is_newline) b) prev s) ->
  1 <= k /\ exists c s', s = c :: s' /\ is_newline c = true.
Proof.
  cbn [ends]. destruct s as [|c s']; [intros []|].
  destruct (is_newline c) eqn:Hc; [|intros []].
  cbn [flat_map]. rewrite app_nil_r. intros Hk.
  apply in_map_iff in Hk. destruct Hk as (j & <- & _).
  split; [lia | now exists c, s'].
Qed.

Lemma section_patterns_shape (p : regex) :
  In p section_patterns -> exists b, p = Cat (Chr is_newline) b.
Proof.
  intros [<- | [<- | [<- | []]]]; eexists; reflexivity.
Qed.

Lemma strictly_ascending (sp : list (nat * nat)) :
  disjoint_ordered sp -> Forall (fun ab => fst ab < snd ab) sp ->
  StronglySorted (fun x y => fst x < fst y) sp.
Proof.
  induction 1 as [|x sp Hsp IH Hx]; intros Hne; constructor.
  - apply IH. now inversion Hne.
  - inversion Hne as [|? ? Hlt _]; subst.
    eapply Forall_impl; [|exact Hx]. intros y. simpl. lia.
Qed.

Lemma sections_of_ascending (t : text) (p : regex) :
  In p section_patterns ->
  StronglySorted (fun a b => position a < position b) (sections_of t p).
Proof.
  intros Hp. destruct (section_patterns_shape Hp) as [b ->].
  destruct (finditer_spans (Cat (Chr is_newline) b) t) as [Hgen Hsorted].
  assert (Hasc : StronglySorted (fun x y => fst x < fst y)
                   (re_finditer (Cat (Chr is_newline) b) t)).
  { apply strictly_ascending; [exact Hsorted|].
    eapply Forall_impl; [|exact Hgen].
    intros ab [Hle Hin]. apply ends_newline_first in Hin. lia. }
  unfold sections_of.
  induction Hasc as [|x sp _ IH Hx]; simpl; constructor.
  { apply IH; [now inversion Hgen | now inversion Hsorted]. }
  apply Forall_forall. intros sec Hsec. apply in_map_iff in Hsec.
  destruct Hsec as (y & <- & Hy). simpl.
  rewrite Forall_forall in Hx. now apply Hx.
Qed.

(** C6 fails on a text with an all-caps header before a numbered heading:
    the numbered heading, at position 9, is listed before the header, at
    position 0. *)
Lemma numbered_heading_listed_first :
  ~ in_document_order (_extract_sections caps_then_numbered).
Proof.
  intros H.
  assert (Hle : 9 <= 0); [|lia].
  apply (H 0 1 (Section_ (str "1. Intro here") 9) (Section_ (str "ABC DEF:") 0));
    [lia | vm_compute; reflexivity | vm_compute; reflexivity].
Qed.

(** C6, amended.  The sections are the matches of the numbered-heading
    pattern, then those of the all-caps pattern, then those of the title-case
    pattern, cut to the first ten; within one pattern the positions strictly
    increase; every entry carries the start of a match of its pattern in the
    text and the trimmed text of that match. *)
Theorem sections_grouped_by_pattern (t : text) :
  _extract_sections t
  = firstn 10 (sections_of t numbered_section
               ++ sections_of t all_caps_header
               ++ sections_of t title_case_header)
  /\ length (_extract_sections t) <= 10
  /\ (forall p, In p section_patterns ->
        StronglySorted (fun a b => position a < position b) (sections_of t p))
  /\ (forall p sec, In p section_patterns -> In sec (sections_of t p) ->
        exists stop, genuine p t (position sec, stop)
                     /\ title sec = strip (slice t (position sec) stop)).
Proof.
  split; [|split; [|split]].
  - unfold _extract_sections, section_patterns. cbn [flat_map].
    now rewrite app_nil_r.
  - apply firstn_le_length.
  - intros p. apply sections_of_ascending.
  - intros p sec _ Hsec. apply in_map_iff in Hsec.
    destruct Hsec as ([a b] & <- & Hab). exists b. split; [|reflexivity].
    destruct (finditer_spans p t) as [Hgen _].
    rewrite Forall_forall in Hgen. now apply Hgen.
Qed.

(** ** Cleaning *)

Lemma newline_is_space (c : ascii) : is_newline c = true -> is_space c = true.
Proof.
  unfold is_newline, is_space, in_range. intros H.
  apply N.eqb_eq in H. now rewrite H.
Qed.

Lemma countdown_head (n lo : nat) :
  lo <= S n -> countdown (S n) lo = S n :: countdown n lo.
Proof.
  intros H. unfold countdown.
  replace (S (S n) - lo) with (S (S n - lo)) by lia.
  rewrite seq_S, rev_app_distr. cbn [rev app].
  now replace (lo + (S n - lo)) with (S n) by lia.
Qed.

Lemma scan_sub_chars (r : regex) (repl s : text) :
  forall (prev : option ascii) (pos skip : nat) (c : ascii),
    In c (flat_map (fun it => match it with Lit c => [c] | Hit _ _ => repl end)
                   (scan r prev s pos skip)) ->
    In c repl \/ In c s.
Proof.
  induction s as [|d s' IH]; intros prev pos skip c; destruct skip as [|skip];
    cbn [scan]; rewrite ?app_nil_r, ?flat_map_app.
  - rewrite flat_map_concat_map, map_map, <- flat_map_concat_map.
    intros H. apply in_flat_map in H. destruct H as (k & _ & H). now left.
  - intros [].
  - intros H. apply in_app_or in H. destruct H as [H | H].
    + rewrite flat_map_concat_map, map_map, <- flat_map_concat_map in H.
      apply in_flat_map in H. destruct H as (k & _ & H). now left.
    + apply in_app_or in H. destruct H as [H | H].
      * destruct (last _ 0 =? 0); simpl in H; [|contradiction].
        destruct H as [<- | []]. right. now left.
      * destruct (IH _ _ _ _ H); [now left | right; now right].
  - intros H. destruct (IH _ _ _ _ H); [now left | right; now right].
Qed.

Lemma re_sub_chars (r : regex) (repl s : text) (c : ascii) :
  In c (re_sub r repl s) -> In c repl \/ In c s.
Proof. apply scan_sub_chars. Qed.

Lemma scan_whitespace_run (s : text) :
  forall (prev : option ascii) (pos skip : nat) (c : ascii),
    In c (flat_map (fun it => match it with Lit c => [c] | Hit _ _ => [space] end)
                   (scan whitespace_run prev s pos skip)) ->
    c = space \/ is_space c = false.
Proof.
  induction s as [|d s' IH]; intros prev pos skip c; destruct skip as [|skip];
    cbn [scan].
  - simpl. intros [].
  - simpl. intros [].
  - unfold whitespace_run at 1 2. cbn [ends run].
    destruct (is_space d) eqn:Hd.
    + cbn [Nat.leb].
      rewrite countdown_head by lia. cbn [hits map last Nat.eqb app flat_map].
      intros [<- | H]; [now left | exact (IH _ _ _ _ H)].
    + cbn [Nat.leb hits map last Nat.eqb pred app flat_map].
      intros [<- | H]; [now right | exact (IH _ _ _ _ H)].
  - apply IH.
Qed.

Lemma lstrip_incl (s : text) (c : ascii) : In c (lstrip s) -> In c s.
Proof.
  induction s as [|d s IH]; simpl; [tauto|].
  destruct (is_space d); [right; now apply IH | tauto].
Qed.

Lemma strip_incl (s : text) (c : ascii) : In c (strip s) -> In c s.
Proof.
  unfold strip. intros H. apply in_rev in H. apply lstrip_incl in H.
  apply in_rev in H. now apply lstrip_incl.
Qed.

(** Cleaned text has no newline: the first substitution replaces every run of
    whitespace by one space and the later steps only delete characters. *)
Lemma clean_text_no_newline (t : text) : no_newline (_clean_text t).
Proof.
  apply Forall_forall. intros c Hc. unfold _clean_text in Hc.
  apply strip_incl in Hc.
  apply re_sub_chars in Hc. destruct Hc as [[] | Hc].
  apply re_sub_chars in Hc. destruct Hc as [[] | Hc].
  apply scan_whitespace_run in Hc. destruct Hc as [-> | Hc]; [reflexivity|].
  destruct (is_newline c) eqn:Hnl; [|reflexivity].
  apply newline_is_space in Hnl. congruence.
Qed.

Lemma scan_without_newline (b : regex) (s : text) :
  no_newline s ->
  forall (prev : option ascii) (pos skip : nat),
    spans (scan (Cat (Chr is_newline) b) prev s pos skip) = [].
Proof.
  induction 1 as [|c s Hc Hs IH]; intros prev pos [|skip]; cbn [scan];
    try reflexivity.
  - cbn [ends flat_map hits map last Nat.eqb pred app].
    rewrite Hc. cbn [flat_map hits map last Nat.eqb pred app spans].
    apply IH.
  - apply IH.
Qed.

Lemma no_section_without_newline (t : text) :
  no_newline t -> _extract_sections t = [].
Proof.
  intros Ht.
  assert (Hnone : forall p, In p section_patterns -> sections_of t p = []).
  { intros p Hp. destruct (section_patterns_shape Hp) as [b ->].
    unfold sections_of, re_finditer. now rewrite scan_without_newline. }
  unfold _extract_sections, section_patterns. cbn [flat_map].
  rewrite !Hnone; [reflexivity | | |]; unfold section_patterns; simpl; auto.
Qed.

Lemma clean_text_no_section (t : text) : _extract_sections (_clean_text t) = [].
Proof. apply no_section_without_newline, clean_text_no_newline. Qed.

(** ** Topics *)

Lemma text_eqb_eq (a b : text) : text_eqb a b = true <-> a = b.
Proof.
  unfold text_eqb. destruct (list_eq_dec ascii_dec a b); split;
    congruence || discriminate || auto.
Qed.

Lemma text_eqb_neq (a b : text) : text_eqb a b = false <-> a <> b.
Proof.
  rewrite <- text_eqb_eq. destruct (text_eqb a b); split; congruence.
Qed.

Lemma first_index_bound (a : text) (l : list text) :
  first_index a l <= length l /\ (In a l -> first_index a l < length l).
Proof.
  induction l as [|x l [IH1 IH2]]; simpl; [intuition lia|].
  destruct (text_dec x a) as [->|Hne]; [intuition lia|].
  split; [lia|]. intros [H | H]; [congruence | specialize (IH2 H); lia].
Qed.

Lemma first_index_app (a : text) (l l' : list text) :
  In a l -> first_index a (l ++ l') = first_index a l.
Proof.
  induction l as [|x l IH]; simpl; [intros []|].
  destruct (text_dec x a); [reflexivity|].
  intros [H | H]; [congruence | now rewrite IH].
Qed.

Lemma first_index_new (a : text) (l : list text) :
  ~ In a l -> first_index a (l ++ [a]) = length l.
Proof.
  induction l as [|x l IH]; simpl; intros H.
  - now destruct (text_dec a a).
  - destruct (text_dec x a); [tauto|]. rewrite IH; tauto.
Qed.

Lemma occurrences_snoc (w x : text) (l : list text) :
  occurrences w (l ++ [x])
  = (occurrences w l + if text_dec x w then 1 else 0)%Z.
Proof.
  unfold occurrences. rewrite count_occ_app. simpl.
  destruct (text_dec x w); lia.
Qed.

Lemma tally_new (w : text) (d : list (text * Z)) :
  ~ In w (map fst d) -> tally w d = d ++ [(w, 1%Z)].
Proof.
  induction d as [|[k m] d IH]; simpl; intros H; [reflexivity|].
  destruct (text_eqb k w) eqn:E.
  - apply text_eqb_eq in E. tauto.
  - rewrite IH; tauto.
Qed.

Lemma tally_keys (w : text) (d : list (text * Z)) :
  In w (map fst d) -> map fst (tally w d) = map fst d.
Proof.
  induction d as [|[k m] d IH]; simpl; [intros []|].
  destruct (text_eqb k w) eqn:E; [reflexivity|].
  apply text_eqb_neq in E. intros [H | H]; [congruence|].
  simpl. now rewrite IH.
Qed.

Lemma tally_entries (w x : text) (n : Z) (d : list (text * Z)) :
  NoDup (map fst d) -> In w (map fst d) -> In (x, n) (tally w d) ->
  (x <> w /\ In (x, n) d)
  \/ (x = w /\ exists m, In (w, m) d /\ n = (m + 1)%Z).
Proof.
  induction d as [|[k m] d IH]; simpl; [intros _ []|].
  intros Hnd Hw. inversion Hnd as [|? ? Hk Hnd']; subst.
  destruct (text_eqb k w) eqn:E.
  - apply text_eqb_eq in E. subst k. intros [H | H].
    + inversion H; subst. right. split; [reflexivity|]. exists m. auto.
    + left. split; [|now right]. intros ->. apply Hk.
      apply in_map_iff. now exists (w, n).
  - apply text_eqb_neq in E. destruct Hw as [Hw | Hw]; [congruence|].
    intros [H | H].
    + inversion H; subst. left. split; [exact E | now left].
    + destruct (IH Hnd' Hw H) as [[H1 H2] | [H1 (m' & H2 & H3)]].
      * left. split; [exact H1 | now right].
      * right. split; [exact H1|]. exists m'. split; [now right | exact H3].
Qed.

Lemma sorted_keys_nodup (done : list text) (ks : list text) :
  StronglySorted (fun a b => first_index a done < first_index b done) ks ->
  NoDup ks.
Proof.
  induction 1 as [|k ks _ IH Hk]; constructor; [|exact IH].
  intros Hin. rewrite Forall_forall in Hk. specialize (Hk k Hin). lia.
Qed.

Lemma keys_sorted_extend (done ks : list text) (w : text) :
  Forall (fun k => In k done) ks ->
  StronglySorted (fun a b => first_index a done < first_index b done) ks ->
  StronglySorted
    (fun a b => first_index a (done ++ [w]) < first_index b (done ++ [w])) ks.
Proof.
  intros Hall Hsorted. induction Hsorted as [|k ks _ IH Hk]; constructor.
  - apply IH. now inversion Hall.
  - inversion Hall as [|? ? Hin Hall']; subst.
    rewrite Forall_forall in *. intros b Hb.
    rewrite !first_index_app by auto. now apply Hk.
Qed.

Lemma keys_sorted_snoc (done ks : list text) (w : text) :
  Forall (fun k => In k done) ks -> ~ In w done ->
  StronglySorted
    (fun a b => first_index a (done ++ [w]) < first_index b (done ++ [w])) ks ->
  StronglySorted
    (fun a b => first_index a (done ++ [w]) < first_index b (done ++ [w]))
    (ks ++ [w]).
Proof.
  intros Hall Hfresh Hsorted.
  induction Hsorted as [|k ks _ IH Hk]; simpl.
  - repeat constructor.
  - inversion Hall as [|? ? Hin Hall']; subst.
    constructor; [now apply IH|].
    apply Forall_app. split; [assumption|].
    constructor; [|constructor].
    rewrite first_index_app by assumption.
    rewrite first_index_new by assumption.
    now apply first_index_bound.
Qed.

Lemma tally_step (done : list text) (d : list (text * Z)) (w : text) :
  tally_inv done d -> tally_inv (done ++ [w]) (tally w d).
Proof.
  intros (Hsorted & Hkeys & Hcount).
  assert (Hall : Forall (fun k => In k done) (map fst d))
    by (apply Forall_forall; intros k; apply Hkeys).
  pose proof (@keys_sorted_extend done (map fst d) w Hall Hsorted) as Hmono.
  destruct (in_dec text_dec w (map fst d)) as [Hin | Hnew].
  - repeat split.
    + now rewrite tally_keys.
    + rewrite tally_keys by assumption. intros H. apply in_app_or in H.
      destruct H as [H | [<- | []]]; [now apply Hkeys | exact Hin].
    + rewrite tally_keys by assumption. intros H. apply in_or_app.
      left. now apply Hkeys.
    + intros x n H. rewrite occurrences_snoc.
      destruct (@tally_entries w x n d (@sorted_keys_nodup done _ Hsorted) Hin H)
        as [[Hx H'] | [-> (m & H' & ->)]].
      * rewrite (Hcount _ _ H'). destruct (text_dec w x); [congruence | lia].
      * rewrite (Hcount _ _ H'). destruct (text_dec w w); [lia | congruence].
  - assert (Hfresh : ~ In w done) by (intros H; now apply Hnew, Hkeys).
    rewrite tally_new by assumption. repeat split.
    + rewrite map_app. simpl. now apply keys_sorted_snoc.
    + rewrite map_app. intros H. apply in_or_app. apply in_app_or in H.
      destruct H as [H | H]; [left; now apply Hkeys | now right].
    + rewrite map_app. intros H. apply in_or_app. apply in_app_or in H.
      destruct H as [H | H]; [left; now apply Hkeys | now right].
    + intros x n H. rewrite occurrences_snoc. apply in_app_or in H.
      destruct H as [H | [H | []]].
      * rewrite (Hcount _ _ H). destruct (text_dec w x) as [->|]; [|lia].
        exfalso. apply Hnew. apply in_map_iff. now exists (x, n).
      * inversion H; subst. destruct (text_dec x x); [|congruence].
        unfold occurrences.
        now rewrite (proj1 (count_occ_not_In text_dec done x)).
Qed.

Lemma tally_loop (ws done : list text) (d : list (text * Z)) :
  tally_inv done d ->
  tally_inv (done ++ filter counted ws) (fold_left count_word ws d).
Proof.
  revert done d. induction ws as [|w ws IH]; intros done d H.
  - simpl. now rewrite app_nil_r.
  - cbn [fold_left filter].
    change (count_word d w) with (if counted w then tally w d else d).
    destruct (counted w).
    + replace (done ++ w :: filter counted ws)
        with ((done ++ [w]) ++ filter counted ws)
        by now rewrite <- app_assoc.
      apply IH. now apply tally_step.
    + now apply IH.
Qed.

(** *** The stable sort by decreasing count *)

Lemma insert_desc_perm (x : text * Z) (l : list (text * Z)) :
  Permutation (insert_desc x l) (x :: l).
Proof.
  induction l as [|y l IH]; simpl; [reflexivity|].
  destruct (snd y <=? snd x)%Z; [reflexivity|].
  rewrite IH. apply perm_swap.
Qed.

Lemma sorted_by_count_perm (d : list (text * Z)) :
  Permutation (sorted_by_count d) d.
Proof.
  induction d as [|x d IH]; simpl; [reflexivity|].
  rewrite insert_desc_perm. now constructor.
Qed.

Section Ranking.

Variable ws : list text.

Lemma insert_desc_ranked (x : text * Z) (l : list (text * Z)) :
  StronglySorted (ranks_before ws) l ->
  Forall (fun z => first_index (fst x) ws < first_index (fst z) ws) l ->
  StronglySorted (ranks_before ws) (insert_desc x l).
Proof.
  induction 1 as [|y l Hl IH Hy]; intros Hx; simpl.
  - repeat constructor.
  - inversion Hx as [|? ? Hxy Hxl]; subst.
    destruct (snd y <=? snd x)%Z eqn:Hle.
    + apply Z.leb_le in Hle.
      constructor; [now constructor|].
      assert (Hbelow : Forall (fun z => (snd z <= snd x)%Z) (y :: l)).
      { constructor; [exact Hle|].
        eapply Forall_impl; [|exact Hy].
        intros z [Hz | [Hz _]]; lia. }
      apply Forall_forall. intros z Hz.
      rewrite Forall_forall in Hbelow, Hx.
      specialize (Hbelow z Hz). specialize (Hx z Hz).
      destruct (Z.eq_dec (snd x) (snd z)) as [Heq | Hne].
      * right. split; assumption.
      * left. lia.
    + apply Z.leb_gt in Hle.
      constructor; [now apply IH|].
      eapply Permutation_Forall; [symmetry; apply insert_desc_perm|].
      constructor; [now left | exact Hy].
Qed.

Lemma sorted_by_count_ranked (d : list (text * Z)) :
  StronglySorted (fun a b => first_index a ws < first_index b ws) (map fst d) ->
  StronglySorted (ranks_before ws) (sorted_by_count d).
Proof.
  induction d as [|x d IH]; simpl; intros H; [constructor|].
  inversion H as [|? ? Hd Hx]; subst.
  apply insert_desc_ranked; [now apply IH|].
  eapply Permutation_Forall; [symmetry; apply sorted_by_count_perm|].
  rewrite Forall_map in Hx. exact Hx.
Qed.

End Ranking.

(** *** The topic words *)

Lemma in_countdown (j hi lo : nat) : In j (countdown hi lo) -> lo <= j <= hi.
Proof.
  unfold countdown. intros H. apply in_rev in H. apply in_seq in H. lia.
Qed.

Lemma ends_topic_word (prev : option ascii) (s : text) (k : nat) :
  In k (ends topic_word prev s) -> 4 <= k <= run is_alpha s.
Proof.
  unfold topic_word. cbn [ends].
  destruct (xorb _ _); [|intros []].
  cbn [flat_map]. rewrite app_nil_r. cbn [skipn prev_at].
  intros H. apply in_map_iff in H. destruct H as (j & <- & H).
  apply in_flat_map in H. destruct H as (i & Hi & H).
  apply in_map_iff in H. destruct H as (z & <- & Hz).
  destruct (4 <=? run is_alpha s); [|destruct Hi].
  apply in_countdown in Hi.
  destruct (xorb _ _); [|destruct Hz].
  destruct Hz as [<- | []]. lia.
Qed.

Lemma firstn_run (p : cclass) (s : text) (k : nat) :
  k <= run p s ->
  length (firstn k s) = k /\ Forall (fun c => p c = true) (firstn k s).
Proof.
  revert k. induction s as [|c s IH]; intros [|k]; simpl; intros H;
    try (split; [reflexivity | constructor]); try lia.
  destruct (p c) eqn:Hc; [|lia].
  destruct (IH k) as [H1 H2]; [lia|].
  split; [now rewrite H1 | now constructor].
Qed.

Lemma lower_char_not_upper (c : ascii) : is_upper (lower_char c) = false.
Proof. destruct c as [[] [] [] [] [] [] [] []]; reflexivity. Qed.

Lemma Forall_firstn_skipn {A} (P : A -> Prop) (n m : nat) (l : list A) :
  Forall P l -> Forall P (firstn n (skipn m l)).
Proof.
  intros H. rewrite Forall_forall in *. intros x Hx.
  apply H. rewrite <- (firstn_skipn m l). apply in_or_app. right.
  rewrite <- (firstn_skipn n (skipn m l)). apply in_or_app. now left.
Qed.

(** Every topic word is a run of at least four lowercase ASCII letters. *)
Lemma topic_words_shape (t : text) :
  Forall (fun w => 4 <= length w /\ Forall (fun c => is_lower c = true) w)
         (topic_words t).
Proof.
  unfold topic_words, re_findall.
  destruct (finditer_spans topic_word (lower t)) as [Hgen _].
  apply Forall_forall. intros w Hw. apply in_map_iff in Hw.
  destruct Hw as ([a b] & <- & Hab).
  rewrite Forall_forall in Hgen. destruct (Hgen _ Hab) as [Hle Hk].
  apply ends_topic_word in Hk. simpl in *. unfold slice.
  destruct (@firstn_run is_alpha (skipn a (lower t)) (b - a)) as [Hlen Halpha];
    [lia|].
  split; [lia|].
  assert (Hlow : Forall (fun c => is_upper c = false)
                        (firstn (b - a) (skipn a (lower t)))).
  { apply Forall_firstn_skipn. unfold lower. apply Forall_map.
    apply Forall_forall. intros c _. apply lower_char_not_upper. }
  rewrite Forall_forall in *. intros c Hc.
  specialize (Halpha c Hc). specialize (Hlow c Hc).
  unfold is_alpha in Halpha. now rewrite Hlow in Halpha.
Qed.

Lemma counted_words_filter (t : text) :
  filter counted (topic_words t) = counted_words t.
Proof.
  unfold counted_words. apply filter_ext_in. intros w Hw.
  pose proof (topic_words_shape t) as Hshape.
  rewrite Forall_forall in Hshape. destruct (Hshape w Hw) as [Hlen _].
  unfold counted. rewrite (proj2 (Nat.ltb_lt 3 (length w))) by lia.
  apply andb_true_r.
Qed.

Lemma StronglySorted_firstn {A} (R : A -> A -> Prop) (n : nat) (l : list A) :
  StronglySorted R l -> StronglySorted R (firstn n l).
Proof.
  intros H. revert n. induction H as [|x l _ IH Hx]; intros [|n]; simpl;
    try constructor; [apply IH|].
  rewrite Forall_forall in *. intros y Hy. apply Hx.
  rewrite <- (firstn_skipn n l). apply in_or_app. now left.
Qed.

Lemma tally_inv_topics (t : text) :
  tally_inv (counted_words t) (fold_left count_word (topic_words t) []).
Proof.
  rewrite <- counted_words_filter.
  apply (@tally_loop (topic_words t) [] []).
  repeat split; simpl; try tauto; constructor.
Qed.

(** C7.  The key topics are the first ten entries of a ranking of the
    counted words (the topic words of the lowercased text that are not stop
    words): each counted word appears once in the ranking with its number of
    occurrences, and the ranking goes by decreasing count, words of equal
    count in the order of their first occurrences.  Every counted word is a
    run of at least four lowercase letters.  On the sample sentence
    [learning], with count 3, comes first. *)
Theorem key_topics_ranked (t : text) :
  exists ranking : list (text * Z),
    _extract_key_topics t = firstn 10 ranking
    /\ length (_extract_key_topics t) <= 10
    /\ StronglySorted (ranks_before (counted_words t)) ranking
    /\ StronglySorted (ranks_before (counted_words t)) (_extract_key_topics t)
    /\ NoDup (map fst ranking)
    /\ (forall w, In w (map fst ranking) <-> In w (counted_words t))
    /\ (forall w n, In (w, n) ranking ->
          n = occurrences w (counted_words t) /\ (1 <= n)%Z)
    /\ Forall (fun w => 4 <= length w
                        /\ Forall (fun c => is_lower c = true) w
                        /\ mem w stop_words = false)
              (counted_words t)
    /\ _extract_key_topics
         (str "machine learning machine learning deep learning")
       = [(str "learning", 3%Z); (str "machine", 2%Z); (str "deep", 1%Z)].
Proof.
  destruct (tally_inv_topics t) as (Hsorted & Hkeys & Hcount).
  set (d := fold_left count_word (topic_words t) []) in *.
  pose proof (sorted_by_count_perm d) as Hperm.
  pose proof (@sorted_by_count_ranked (counted_words t) d Hsorted) as Hranked.
  exists (sorted_by_count d).
  split; [reflexivity|].
  split; [apply firstn_le_length|].
  split; [exact Hranked|].
  split; [now apply StronglySorted_firstn|].
  split.
  { eapply Permutation_NoDup.
    - symmetry. apply Permutation_map. exact Hperm.
    - exact (@sorted_keys_nodup (counted_words t) _ Hsorted). }
  split.
  { intros w. rewrite Hkeys. split; apply Permutation_in;
      [|symmetry]; now apply Permutation_map. }
  split.
  { intros w n Hin. apply (Permutation_in _ Hperm) in Hin.
    split; [now apply Hcount|].
    rewrite (Hcount _ _ Hin). unfold occurrences.
    assert (Hw : In w (counted_words t)).
    { apply Hkeys. apply in_map_iff. now exists (w, n). }
    apply (count_occ_In text_dec) in Hw. lia. }
  split; [|vm_compute; reflexivity].
  apply Forall_forall. intros w Hw. unfold counted_words in Hw.
  apply filter_In in Hw. destruct Hw as [Hw Hstop].
  pose proof (topic_words_shape t) as Hshape.
  rewrite Forall_forall in Hshape. destruct (Hshape w Hw) as [Hlen Hlow].
  repeat split; trivial. now destruct (mem w stop_words).
Qed.

(** ** The orchestrator *)

Lemma too_long_iff (combined_summary : text) (target_word_count : Z) :
  too_long combined_summary target_word_count = true
  <-> (12 * target_word_count < 10 * word_count_of combined_summary)%Z.
Proof.
  unfold too_long, Qltb, Qle_bool.
  rewrite negb_true_iff, Z.leb_gt.
  unfold Qmult, inject_Z. cbn [Qnum Qden].
  change (1 * 10)%positive with 10%positive. lia.
Qed.

Section Orchestrator.

Variable world : Type.
Variable complete : request -> world -> option text * world.
Variable textstat : text -> option (list (text * Q)).

Lemma summarize_chunks_cons (target_word_count duration_minutes : Z)
      (chunk : text) (rest summaries : list text) (tr : trace world) :
  summarize_chunks complete (chunk :: rest) target_word_count
                   duration_minutes summaries tr
  = let rq := chunk_request target_word_count duration_minutes chunk in
    match complete rq (service tr) with
    | (Some content, w) =>
        summarize_chunks complete rest target_word_count duration_minutes
                         (summaries ++ [strip content])
                         (Trace w (calls tr ++ [rq]))
    | (None, w) => (Raises APIError, Trace w (calls tr ++ [rq]))
    end.
Proof.
  cbn [summarize_chunks]. unfold bind, chat_completions_create, chunk_request.
  cbn zeta. now destruct (complete _ (service tr)) as [[content|] w].
Qed.

(** The loop over the chunks sends the chunk requests in order and nothing
    else; it stops at the first request that fails. *)
Lemma summarize_chunks_calls (target_word_count duration_minutes : Z)
      (chunks : list text) :
  forall (summaries : list text) (tr : trace world),
    let run := summarize_chunks complete chunks target_word_count
                                duration_minutes summaries tr in
    exists new : list request,
      calls (snd run) = calls tr ++ new
      /\ filter is_shorten new = []
      /\ length new <= length chunks
      /\ match fst run with
         | Returns _ =>
             new = map (chunk_request target_word_count duration_minutes) chunks
         | Raises _ => True
         end.
Proof.
  induction chunks as [|chunk rest IH]; intros summaries tr; cbn zeta.
  - exists []. simpl. rewrite app_nil_r. auto.
  - rewrite summarize_chunks_cons. cbn zeta.
    destruct (complete _ (service tr)) as [[content|] w].
    + destruct (IH (summaries ++ [strip content])
                   (Trace w (calls tr ++
                      [chunk_request target_word_count duration_minutes chunk])))
        as (new & Hcalls & Hnone & Hlen & Hret).
      exists (chunk_request target_word_count duration_minutes chunk :: new).
      rewrite Hcalls. cbn [calls].
      rewrite <- app_assoc. repeat split; simpl; trivial; [lia|].
      destruct (fst _); [now rewrite Hret | trivial].
    + exists [chunk_request target_word_count duration_minutes chunk].
      simpl. repeat split; trivial. lia.
Qed.

Lemma create_openai_summary_run (t : text)
      (target_word_count duration_minutes : Z) (tr : trace world) :
  _create_openai_summary complete t target_word_count duration_minutes tr
  = match summarize_chunks complete
            (_split_text_into_chunks t max_chunk_length)
            target_word_count duration_minutes [] tr with
    | (Returns summaries, tr1) =>
        let combined_summary := str_join [space] summaries in
        if too_long combined_summary target_word_count then
          let rq := ShortenRequest combined_summary target_word_count
                                   duration_minutes
                                   (target_word_count + 200)%Z in
          match complete rq (service tr1) with
          | (Some content, w) =>
              (Returns (strip content), Trace w (calls tr1 ++ [rq]))
          | (None, w) => (Raises APIError, Trace w (calls tr1 ++ [rq]))
          end
        else (Returns combined_summary, tr1)
    | (Raises e, tr1) => (Raises e, tr1)
    end.
Proof.
  unfold _create_openai_summary, bind.
  destruct (summarize_chunks _ _ _ _ _ _) as [[summaries | e] tr1];
    [|reflexivity].
  cbn zeta. destruct (too_long _ _); [|reflexivity].
  unfold chat_completions_create.
  now destruct (complete _ (service tr1)) as [[content|] w].
Qed.

(** C1.  In a run of [_create_openai_summary] the requests are counted from
    the trace.  At most one of them is a Shorten request.  When the loop over
    the chunks returns, the requests are exactly one per chunk, in chunk
    order, followed by one Shorten request if and only if the word count of
    the chunk summaries joined with single spaces exceeds 1.2 times the
    target word count; when the loop raises, the run raises and no Shorten
    request is sent. *)
Theorem shorten_iff_too_long (t : text) (target_word_count duration_minutes : Z)
        (tr : trace world) :
  let chunks := _split_text_into_chunks t max_chunk_length in
  let run := _create_openai_summary complete t target_word_count
                                    duration_minutes tr in
  exists new : list request,
    calls (snd run) = calls tr ++ new
    /\ length (filter is_shorten new) <= 1
    /\ match summarize_chunks complete chunks target_word_count
                              duration_minutes [] tr with
       | (Returns summaries, _) =>
           let combined_summary := str_join [space] summaries in
           let exceeded := too_long combined_summary target_word_count in
           (exceeded = true
            <-> (12 * target_word_count
                 < 10 * word_count_of combined_summary)%Z)
           /\ new = expected_requests chunks summaries target_word_count
                                      duration_minutes
           /\ length new = length chunks + (if exceeded then 1 else 0)
           /\ length (filter is_shorten new) = (if exceeded then 1 else 0)
       | (Raises e, _) =>
           fst run = Raises e /\ filter is_shorten new = []
           /\ length new <= length chunks
       end.
Proof.
  cbn zeta. rewrite create_openai_summary_run.
  set (chunks := _split_text_into_chunks t max_chunk_length).
  destruct (summarize_chunks_calls target_word_count duration_minutes chunks [] tr)
    as (new & Hcalls & Hnone & Hlen & Hret).
  destruct (summarize_chunks complete chunks target_word_count
                             duration_minutes [] tr)
    as [[summaries | e] tr1]; cbn [fst snd] in *.
  - exists (expected_requests chunks summaries target_word_count
                              duration_minutes).
    unfold expected_requests. cbn zeta. subst new.
    pose proof (too_long_iff (str_join [space] summaries) target_word_count)
      as Hiff.
    destruct (too_long (str_join [space] summaries) target_word_count).
    + destruct (complete _ (service tr1)) as [[content|] w];
        cbn [snd calls]; rewrite Hcalls, <- app_assoc;
        rewrite filter_app, Hnone, !length_app, length_map;
        (split; [reflexivity|]); cbn [app filter is_shorten length];
        (split; [lia|]);
        repeat split; simpl; auto; try lia; apply Hiff; assumption.
    + rewrite app_nil_r, Hnone, length_map. cbn [snd].
      rewrite Hcalls. repeat split; simpl; auto; apply Hiff; assumption.
  - exists new. rewrite Hnone. simpl. auto.
Qed.

End Orchestrator.

(** Two runs against a stub model that always gives the same answer of
    three words: with a budget of 2325 words the only request is the chunk
    request; with a budget of 0 words a Shorten request follows it. *)
Example one_chunk_no_shorten :
  map is_shorten
      (calls (snd (_create_openai_summary (stub_model (str "A short summary."))
                     fifty_characters 2325 15 fresh)))
  = [false].
Proof. vm_compute. reflexivity. Qed.

Example zero_budget_shortens :
  map is_shorten
      (calls (snd (_create_openai_summary (stub_model (str "A short summary."))
                     fifty_characters 0 0 fresh)))
  = [false; true].
Proof. vm_compute. reflexivity. Qed.

(** ** The result record *)

Lemma round1_nearest (n : Z) (d : positive) :
  exists k : Z,
    round1 (Qmake n d) = Qmake k 10
    /\ (Z.abs (2 * (10 * n - k * Zpos d)) <= Zpos d)%Z.
Proof.
  unfold round1. cbn [Qnum Qden].
  pose proof (Z.div_mod (n * 10) (Zpos d)) as Hdm.
  pose proof (Z.mod_pos_bound (n * 10) (Zpos d)) as Hb.
  set (fl := (n * 10 / Zpos d)%Z) in *.
  set (r := ((n * 10) mod Zpos d)%Z) in *.
  assert (Hn : (n * 10 = Zpos d * fl + r)%Z) by (apply Hdm; discriminate).
  assert (Hr : (0 <= r < Zpos d)%Z) by (apply Hb; reflexivity).
  clear Hdm Hb.
  destruct (Z.ltb_spec (2 * r) (Zpos d)).
  - exists fl. split; [reflexivity | lia].
  - destruct (Z.ltb_spec (Zpos d) (2 * r)).
    + exists (fl + 1)%Z. split; [reflexivity | lia].
    + destruct (Z.even fl); [exists fl | exists (fl + 1)%Z];
        (split; [reflexivity | lia]).
Qed.

Section Result.

Variable world : Type.
Variable complete : request -> world -> option text * world.
Variable textstat : text -> option (list (text * Q)).

(** A run that returns has received a non-empty summary from
    [_create_openai_summary] on the cleaned text, and its record is built
    from that summary. *)
Lemma summarize_for_video_returns (t : text) (target_duration_minutes : Z)
      (tr tr' : trace world) (r : result) :
  summarize_for_video complete textstat t target_duration_minutes tr
  = (Returns r, tr') ->
  exists summary_text : text,
    _create_openai_summary complete (_clean_text t)
                           (target_duration_minutes * 155)
                           target_duration_minutes tr
    = (Returns summary_text, tr')
    /\ summary_text <> []
    /\ r = Result summary_text
                  (_extract_key_points (_clean_text t) summary_text)
                  (_extract_key_topics (_clean_text t))
                  (_extract_sections (_clean_text t))
                  (word_count_of summary_text)
                  (target_duration_minutes * 155)
                  (_estimate_reading_time summary_text)
                  (_calculate_reading_metrics textstat summary_text)
                  (word_count_of t).
Proof.
  unfold summarize_for_video, bind, lift, _calculate_target_word_count,
    words_per_minute.
  destruct (_create_openai_summary _ _ _ _ _) as [[s | e] tr1];
    [|discriminate].
  destruct s as [|c s]; [discriminate|].
  cbn [is_nil]. unfold ret. intros H. inversion H; subst.
  eexists. split; [reflexivity|]. split; [discriminate | reflexivity].
Qed.

(** C9.  In the record of every run that returns, [word_count] is the
    number of whitespace-delimited tokens of [summary] and
    [estimated_duration_minutes] is [word_count / 155] rounded to one decimal:
    a number of tenths [k] with [|10 * word_count / 155 - k| <= 1/2]. *)
Theorem result_word_count_and_duration (t : text)
        (target_duration_minutes : Z) (tr tr' : trace world) (r : result) :
  summarize_for_video complete textstat t target_duration_minutes tr
  = (Returns r, tr') ->
  word_count r = Z.of_nat (length (str_split (summary r)))
  /\ estimated_duration_minutes r
     = round1 (Qdiv (inject_Z (word_count r)) (inject_Z 155))
  /\ exists k : Z,
       estimated_duration_minutes r = Qmake k 10
       /\ (Z.abs (20 * word_count r - 310 * k) <= 155)%Z.
Proof.
  intros Hrun. apply summarize_for_video_returns in Hrun.
  destruct Hrun as (s & _ & _ & ->). cbn [word_count summary estimated_duration_minutes].
  split; [reflexivity|]. split; [reflexivity|].
  unfold _estimate_reading_time, words_per_minute.
  destruct (round1_nearest (word_count_of s * 1) (1 * 155)) as (k & Hk & Hnear).
  exists k. split; [exact Hk|].
  change (Zpos (1 * 155)) with 155%Z in Hnear. lia.
Qed.

(** C10.  In the record of every run that returns, [sections] is empty: the
    cleaned text has no newline, and no heading pattern matches a text
    without a newline. *)
Theorem pipeline_sections_empty (t : text) (target_duration_minutes : Z)
        (tr tr' : trace world) (r : result) :
  summarize_for_video complete textstat t target_duration_minutes tr
  = (Returns r, tr') ->
  sections r = []
  /\ no_newline (_clean_text t)
  /\ (forall p, In p section_patterns -> re_finditer p (_clean_text t) = []).
Proof.
  intros Hrun. apply summarize_for_video_returns in Hrun.
  destruct Hrun as (s & _ & _ & ->). cbn [sections].
  split; [apply clean_text_no_section|].
  split; [apply clean_text_no_newline|].
  intros p Hp. destruct (section_patterns_shape Hp) as [b ->].
  unfold re_finditer. apply scan_without_newline, clean_text_no_newline.
Qed.

(** *** The guard of [process_pdf] *)

Variable path_exists : text -> bool.
Variable extract_text : text -> outcome text.


End Result.

(** The extractor itself returns only texts of more than 100 characters
    after trimming, whatever the two libraries find. *)
Lemma extract_text_meaningful (plumber pypdf2 : text -> text)
      (pdf_path t : text) :
  PDFExtractor.extract_text plumber pypdf2 pdf_path = Returns t ->
  (100 < len (strip t))%Z.
Proof.
  unfold PDFExtractor.extract_text.
  destruct (PDFExtractor.meaningful (plumber pdf_path)) eqn:H1.
  - intros H. inversion H; subst.
    apply andb_prop in H1. now apply Z.ltb_lt.
  - destruct (PDFExtractor.meaningful (pypdf2 pdf_path)) eqn:H2;
      [|discriminate].
    intros H. inversion H; subst.
    apply andb_prop in H2. now apply Z.ltb_lt.
Qed.


(** That run sends one request, for the single chunk. *)
Lemma short_text_one_request :
  length (calls (snd (summarize_for_video
                        (stub_model (str "A short summary.")) no_textstat
                        fifty_characters 15 fresh))) = 1
  /\ length fifty_characters = 50.
Proof. split; vm_compute; reflexivity. Qed.


(** The record of a run on the sample document against the stub model *)
Lemma result_word_count_and_duration_witness :
  exists (r : result) (tr' : trace unit),
    summarize_for_video (stub_model (str "A short summary.")) no_textstat
                        sample_document 15 fresh
    = (Returns r, tr')
    /\ word_count r = Z.of_nat (length (str_split (summary r)))
    /\ estimated_duration_minutes r
       = round1 (Qdiv (inject_Z (word_count r)) (inject_Z 155))
    /\ exists k : Z,
         estimated_duration_minutes r = Qmake k 10
         /\ (Z.abs (20 * word_count r - 310 * k) <= 155)%Z.
Proof.
  destruct (summarize_for_video (stub_model (str "A short summary."))
              no_textstat sample_document 15 fresh) as [[r | e] tr'] eqn:Hrun.
  - exists r, tr'. split; [reflexivity|].
    exact (result_word_count_and_duration _ _ _ _ _ Hrun).
  - vm_compute in Hrun. discriminate Hrun.
Defined.

(** The sample document has a numbered heading on its own line, and the
    record of its run has no section. *)
Lemma pipeline_sections_empty_witness :
  exists (r : result) (tr' : trace unit),
    summarize_for_video (stub_model (str "A short summary.")) no_textstat
                        sample_document 15 fresh
    = (Returns r, tr')
    /\ sections r = []
    /\ no_newline (_clean_text sample_document)
    /\ (forall p, In p section_patterns ->
          re_finditer p (_clean_text sample_document) = []).
Proof.
  destruct (summarize_for_video (stub_model (str "A short summary."))
              no_textstat sample_document 15 fresh) as [[r | e] tr'] eqn:Hrun.
  - exists r, tr'. split; [reflexivity|].
    exact (pipeline_sections_empty _ _ _ _ _ Hrun).
  - vm_compute in Hrun. discriminate Hrun.
Defined.

(** * Further properties *)

(** ** The size of the chunks *)

Lemma len_app (a b : text) : len (a ++ b) = (len a + len b)%Z.
Proof. unfold len. rewrite length_app. lia. Qed.

Lemma len_nonneg (a : text) : (0 <= len a)%Z.
Proof. unfold len. lia. Qed.

Lemma str_join_snoc (ws : list text) (w : text) :
  ws <> [] ->
  str_join [space] (ws ++ [w]) = str_join [space] ws ++ space :: w.
Proof.
  intros H. rewrite str_join_app by (trivial; discriminate). reflexivity.
Qed.

Lemma chunk_fits_join (max_length : Z) (st : chunker) :
  chunk_bound_inv max_length st -> current_chunk st <> [] ->
  chunk_fits max_length (str_join [space] (current_chunk st)).
Proof.
  intros (_ & Htok & Hlen & Hmax) Hne.
  destruct (current_chunk st) as [|w [|v cur]]; [congruence | |].
  - right. simpl. apply str_split_token. now inversion Htok.
  - left. specialize (Hmax ltac:(simpl; lia)). lia.
Qed.

Lemma chunk_step_bound (max_length : Z) (st : chunker) (word : text) :
  chunk_bound_inv max_length st -> token word ->
  chunk_bound_inv max_length (chunk_step max_length st word).
Proof.
  intros Hinv Hword. pose proof Hinv as (Hch & Htok & Hlen & Hmax).
  unfold chunk_step.
  destruct (current_chunk st) as [|w cur] eqn:Hcur.
  - rewrite andb_false_r. repeat split; cbn [chunks current_chunk current_length].
    + exact Hch.
    + constructor; [exact Hword | constructor].
    + cbn [app str_join] in *. unfold len in *. cbn [length] in Hlen. lia.
    + cbn [app length]. lia.
  - destruct (current_length st + len word + 1 >? max_length)%Z eqn:Hcmp;
      cbn [andb negb is_nil]; repeat split;
      cbn [chunks current_chunk current_length].
    + apply Forall_app. split; [exact Hch|]. constructor; [|constructor].
      rewrite <- Hcur. apply chunk_fits_join; [exact Hinv | congruence].
    + constructor; [exact Hword | constructor].
    + cbn [str_join]. lia.
    + cbn [length]. lia.
    + exact Hch.
    + apply Forall_app. split; [exact Htok|].
      constructor; [exact Hword | constructor].
    + rewrite str_join_snoc by discriminate.
      rewrite len_app. change (len (space :: word)) with (Z.of_nat (S (length word))).
      unfold len in *. lia.
    + intros _. rewrite Z.gtb_ltb in Hcmp. apply Z.ltb_ge in Hcmp. lia.
Qed.

Lemma chunk_loop_bound (max_length : Z) (ws : list text) (st : chunker) :
  chunk_bound_inv max_length st -> Forall token ws ->
  chunk_bound_inv max_length (fold_left (chunk_step max_length) ws st).
Proof.
  revert st. induction ws as [|w ws IH]; intros st Hinv Hws; [exact Hinv|].
  inversion Hws; subst. simpl. apply IH; [|assumption].
  now apply chunk_step_bound.
Qed.

(** X1.  Every chunk has at most [max_length] characters, except a chunk
    that consists of one token: a token is never split, so a token longer
    than the limit is a chunk of its own. *)
Theorem chunk_size_bound (t : text) (max_length : Z) :
  Forall (fun c => (len c <= max_length)%Z \/ str_split c = [c])
         (_split_text_into_chunks t max_length).
Proof.
  unfold _split_text_into_chunks.
  assert (Hinv : chunk_bound_inv max_length
                   (fold_left (chunk_step max_length) (str_split t)
                              (Chunker [] [] 0%Z))).
  { apply chunk_loop_bound; [|apply str_split_tokens].
    unfold chunk_bound_inv.
    cbn [chunks current_chunk current_length str_join length].
    split; [constructor|]. split; [constructor|].
    split; [reflexivity | lia]. }
  unfold chunk_flush.
  destruct (current_chunk _) as [|w cur] eqn:Hcur; cbn [is_nil].
  - apply Hinv.
  - apply Forall_app. split; [apply Hinv|]. constructor; [|constructor].
    rewrite <- Hcur. apply chunk_fits_join; [exact Hinv | congruence].
Qed.

Lemma str_join_len_prefix (a b : list text) :
  (len (str_join [space] a) <= len (str_join [space] (a ++ b)))%Z.
Proof.
  destruct a as [|w a]; [apply len_nonneg|].
  destruct b as [|v b]; [rewrite app_nil_r; lia|].
  rewrite str_join_app by discriminate. rewrite len_app.
  pose proof (len_nonneg ([space] ++ str_join [space] (v :: b))). lia.
Qed.

Lemma chunk_loop_no_flush (max_length : Z) (ws cur : list text) :
  cur <> [] ->
  (len (str_join [space] (cur ++ ws)) < max_length)%Z ->
  fold_left (chunk_step max_length) ws
            (Chunker [] cur (len (str_join [space] cur) + 1))
  = Chunker [] (cur ++ ws) (len (str_join [space] (cur ++ ws)) + 1).
Proof.
  revert cur. induction ws as [|w ws IH]; intros cur Hne Hfit.
  - now rewrite app_nil_r.
  - cbn [fold_left]. unfold chunk_step at 2.
    cbn [chunks current_chunk current_length].
    assert (Hlen : len (str_join [space] (cur ++ [w]))
                   = (len (str_join [space] cur) + len w + 1)%Z).
    { rewrite str_join_snoc by assumption. rewrite len_app.
      change (len (space :: w)) with (Z.of_nat (S (length w))).
      unfold len. lia. }
    assert (Hstep : (len (str_join [space] (cur ++ [w]))
                     <= len (str_join [space] (cur ++ w :: ws)))%Z).
    { replace (cur ++ w :: ws) with ((cur ++ [w]) ++ ws)
        by now rewrite <- app_assoc.
      apply str_join_len_prefix. }
    replace ((len (str_join [space] cur) + 1 + len w + 1 >? max_length)%Z)
      with false by (symmetry; rewrite Z.gtb_ltb; apply Z.ltb_ge; lia).
    cbn [andb].
    replace (len (str_join [space] cur) + 1 + len w + 1)%Z
      with (len (str_join [space] (cur ++ [w])) + 1)%Z by lia.
    rewrite IH.
    + now rewrite <- app_assoc.
    + now destruct cur.
    + now rewrite <- app_assoc.
Qed.

(** X2.  A text whose tokens, joined with single spaces, stay below
    [max_length] is a single chunk: that joined text. *)
Theorem short_text_single_chunk (t : text) (max_length : Z) :
  str_split t <> [] ->
  (len (str_join [space] (str_split t)) < max_length)%Z ->
  _split_text_into_chunks t max_length = [str_join [space] (str_split t)].
Proof.
  intros Hne Hfit. unfold _split_text_into_chunks.
  destruct (str_split t) as [|w ws]; [congruence|].
  cbn [fold_left]. unfold chunk_step at 2.
  cbn [chunks current_chunk current_length is_nil negb].
  rewrite andb_false_r.
  change ([] ++ [w]) with [w].
  replace (0 + len w + 1)%Z with (len (str_join [space] [w]) + 1)%Z
    by (simpl; lia).
  rewrite chunk_loop_no_flush; [reflexivity | discriminate | exact Hfit].
Qed.

(** The whole sample document goes into one chunk of the summarizer. *)
Lemma short_text_single_chunk_witness :
  str_split sample_document <> []
  /\ (len (str_join [space] (str_split sample_document)) < 12000)%Z
  /\ _split_text_into_chunks sample_document 12000
     = [str_join [space] (str_split sample_document)].
Proof.
  assert (H1 : str_split sample_document <> []) by (vm_compute; discriminate).
  assert (H2 : (len (str_join [space] (str_split sample_document)) < 12000)%Z)
    by (vm_compute; reflexivity).
  split; [exact H1|]. split; [exact H2|].
  exact (short_text_single_chunk sample_document H1 H2).
Defined.

(** ** Characters outside the matches *)

Lemma sub_chars_lits (r : regex) (repl s : text) (c : ascii) :
  In c (re_sub r repl s) -> In c repl \/ In c (lits (scan r None s 0 0)).
Proof.
  unfold re_sub. induction (scan r None s 0 0) as [|[d | a b] its IH]; simpl.
  - tauto.
  - intros [<- | H]; [right; now left | destruct (IH H); auto].
  - intros H. apply in_app_or in H. destruct H as [H | H]; [now left | auto].
Qed.

Lemma pieces_chars (its : list item) :
  forall (cur x : text) (c : ascii),
    In x (pieces its cur) -> In c x -> In c cur \/ In c (lits its).
Proof.
  induction its as [|[d | a b] its IH]; intros cur x c; simpl.
  - intros [<- | []] Hc. left. now apply in_rev.
  - intros Hx Hc. destruct (IH _ _ _ Hx Hc) as [[<- | H] | H]; auto.
  - intros [<- | Hx] Hc.
    + left. now apply in_rev.
    + destruct (IH _ _ _ Hx Hc) as [[] | H]. now right.
Qed.

Lemma lits_app (a b : list item) : lits (a ++ b) = lits a ++ lits b.
Proof.
  induction a as [|[c | x y] a IH]; simpl; [reflexivity | now rewrite IH | exact IH].
Qed.

Lemma lits_hits (pos : nat) (hs : list nat) :
  lits (map (fun k => Hit pos (pos + k)) hs) = [].
Proof. induction hs; simpl; trivial. Qed.

(** A scan for one character of a class, or for a run of them, leaves only
    characters outside the class. *)
Lemma scan_chr_lits (p : cclass) (s : text) :
  forall (prev : option ascii) (pos skip : nat),
    Forall (fun c => p c = false) (lits (scan (Chr p) prev s pos skip)).
Proof.
  induction s as [|d s' IH]; intros prev pos [|skip]; cbn [scan ends];
    try (simpl; constructor; fail); [|apply IH].
  destruct (p d) eqn:Hd; cbn [hits map last Nat.eqb pred app lits].
  - apply IH.
  - constructor; [exact Hd | apply IH].
Qed.

Lemma scan_rep_lits (p : cclass) (s : text) :
  forall (prev : option ascii) (pos skip : nat),
    Forall (fun c => p c = false) (lits (scan (Rep p 1) prev s pos skip)).
Proof.
  induction s as [|d s' IH]; intros prev pos [|skip]; cbn [scan];
    try (simpl; constructor; fail); [|apply IH].
  rewrite lits_app, lits_hits, lits_app. cbn [app ends run].
  destruct (p d) eqn:Hd.
  - cbn [Nat.leb]. rewrite countdown_head by lia. cbn [hits last Nat.eqb lits app].
    apply IH.
  - cbn [Nat.leb hits last Nat.eqb lits app].
    constructor; [exact Hd | apply IH].
Qed.

(** ** Trimming *)

Lemma lstrip_head (s : text) (c : ascii) :
  hd_error (lstrip s) = Some c -> is_space c = false.
Proof.
  induction s as [|d s IH]; simpl; [discriminate|].
  destruct (is_space d) eqn:Hd; [exact IH|].
  simpl. intros H. inversion H; subst. exact Hd.
Qed.

Lemma lstrip_suffix (s : text) : exists p, s = p ++ lstrip s.
Proof.
  induction s as [|d s [p IH]]; simpl; [now exists []|].
  destruct (is_space d); [|now exists []].
  exists (d :: p). simpl. now rewrite <- IH.
Qed.

Lemma strip_trimmed (s : text) : trimmed (strip s).
Proof.
  unfold trimmed, strip. split; intros c.
  - destruct (lstrip_suffix (rev (lstrip s))) as [p Hp].
    assert (Hy : lstrip s = rev (lstrip (rev (lstrip s))) ++ rev p).
    { rewrite <- rev_app_distr, <- Hp. symmetry. apply rev_involutive. }
    destruct (rev (lstrip (rev (lstrip s)))) as [|d z]; [discriminate|].
    simpl. intros H. inversion H; subst.
    apply (lstrip_head s). now rewrite Hy.
  - rewrite rev_involutive. apply lstrip_head.
Qed.

(** ** What cleaning leaves *)

(** X3.  Cleaned text consists of word characters, plain spaces and the
    punctuation that the second substitution keeps; it has no other
    whitespace (no tab, no line break), and it neither starts nor ends with
    a space. *)
Theorem clean_text_alphabet (t : text) :
  Forall (fun c => kept_char c = true) (_clean_text t)
  /\ Forall (fun c => is_space c = true -> c = space) (_clean_text t)
  /\ trimmed (_clean_text t).
Proof.
  assert (Hstep1 : forall c, In c (_clean_text t) -> c = space \/ is_space c = false).
  { intros c Hc. unfold _clean_text in Hc. apply strip_incl in Hc.
    apply re_sub_chars in Hc. destruct Hc as [[] | Hc].
    apply re_sub_chars in Hc. destruct Hc as [[] | Hc].
    now apply scan_whitespace_run in Hc. }
  split; [|split].
  - apply Forall_forall. intros c Hc. pose proof (Hstep1 c Hc) as Hsp.
    unfold _clean_text in Hc. apply strip_incl in Hc.
    apply re_sub_chars in Hc. destruct Hc as [[] | Hc].
    apply sub_chars_lits in Hc. destruct Hc as [[] | Hc].
    pose proof (scan_chr_lits
                  (fun c => negb (is_word c || is_space c
                                  || one_of ".,!?;:-()[]" c
                                  || (code c =? 34)%N || (code c =? 39)%N))
                  (re_sub whitespace_run [space] t) None 0 0) as Hkept.
    rewrite Forall_forall in Hkept. specialize (Hkept c Hc).
    apply negb_false_iff in Hkept. unfold kept_char.
    destruct Hsp as [-> | Hsp]; [reflexivity|].
    rewrite Hsp, orb_false_r in Hkept.
    destruct (is_word c); [reflexivity|]. simpl in *.
    destruct (code c =? 32)%N; [reflexivity | exact Hkept].
  - apply Forall_forall. intros c Hc Hsp.
    destruct (Hstep1 c Hc); congruence.
  - apply strip_trimmed.
Qed.

Lemma scan_whitespace_skip (s : text) :
  forall (prev : option ascii) (pos : nat),
    scan whitespace_run prev s pos (length s) = [].
Proof.
  induction s as [|c s IH]; intros prev pos; [reflexivity|].
  cbn [length scan]. apply IH.
Qed.

Lemma run_all (p : cclass) (s : text) :
  forallb p s = true -> run p s = length s.
Proof.
  induction s as [|c s IH]; simpl; [reflexivity|].
  destruct (p c); [|discriminate]. intros H. now rewrite IH.
Qed.

Lemma sub_whitespace_blank (t : text) :
  forallb is_space t = true ->
  re_sub whitespace_run [space] t = [] \/ re_sub whitespace_run [space] t = [space].
Proof.
  destruct t as [|c s]; [now left|]. intros Hall. right.
  assert (E : hits (ends whitespace_run None (c :: s)) = [S (length s)]).
  { unfold whitespace_run. cbn [ends].
    rewrite (run_all is_space (c :: s) Hall). cbn [length Nat.leb].
    now rewrite countdown_head by lia. }
  unfold re_sub. cbn [scan]. rewrite E.
  cbn [map last Nat.eqb pred app].
  rewrite scan_whitespace_skip. reflexivity.
Qed.

(** X4.  A text of whitespace only is cleaned to the empty string. *)
Theorem blank_text_cleans_to_nothing (t : text) :
  forallb is_space t = true -> _clean_text t = [].
Proof.
  intros Hall. unfold _clean_text.
  destruct (sub_whitespace_blank t Hall) as [-> | ->]; reflexivity.
Qed.

(** A space, a line break and a tabulation *)
Lemma blank_text_cleans_to_nothing_witness :
  forallb is_space [space; newline; ascii_of_N 9] = true
  /\ _clean_text [space; newline; ascii_of_N 9] = [].
Proof.
  split; [reflexivity|].
  apply (blank_text_cleans_to_nothing [space; newline; ascii_of_N 9]).
  reflexivity.
Defined.

(** ** Key points and sections *)

(** X5.  Every key point has between 21 and 99 characters, contains no
    full stop, exclamation mark or question mark, and neither starts nor
    ends with whitespace. *)
Theorem key_points_well_formed (original_text summary : text) :
  Forall (fun kp => 20 < length kp < 100
                    /\ Forall (fun c => one_of ".!?" c = false) kp
                    /\ trimmed kp)
         (_extract_key_points original_text summary).
Proof.
  unfold _extract_key_points. rewrite key_point_loop. cbn [app].
  apply Forall_forall. intros kp Hkp.
  assert (Hin : In kp (filter good_length
                         (map strip (re_split sentence_end summary)))).
  { rewrite <- (firstn_skipn 5 (filter _ _)). apply in_or_app. now left. }
  apply filter_In in Hin. destruct Hin as [Hin Hgood].
  apply in_map_iff in Hin. destruct Hin as (piece & <- & Hpiece).
  split; [|split].
  - unfold good_length in Hgood. apply andb_prop in Hgood.
    destruct Hgood as [H1 H2]. apply Nat.ltb_lt in H1, H2. lia.
  - apply Forall_forall. intros c Hc. apply strip_incl in Hc.
    destruct (pieces_chars _ _ _ c Hpiece Hc) as [[] | Hlit].
    pose proof (scan_rep_lits (one_of ".!?") summary None 0 0) as Hout.
    rewrite Forall_forall in Hout. now apply Hout.
  - apply strip_trimmed.
Qed.

(** X6.  The position of every section is the index of a line break in the
    text: the one that the heading pattern starts with. *)
Theorem section_positions_at_newlines (t : text) :
  Forall (fun sec => exists c, nth_error t (position sec) = Some c
                               /\ is_newline c = true)
         (_extract_sections t).
Proof.
  apply Forall_forall. intros sec Hsec. unfold _extract_sections in Hsec.
  assert (Hin : In sec (flat_map (sections_of t) section_patterns)).
  { rewrite <- (firstn_skipn 10 (flat_map _ _)). apply in_or_app. now left. }
  apply in_flat_map in Hin. destruct Hin as (p & Hp & Hin).
  destruct (section_patterns_shape Hp) as [b ->].
  apply in_map_iff in Hin. destruct Hin as ([a e] & <- & Hspan).
  destruct (finditer_spans (Cat (Chr is_newline) b) t) as [Hgen _].
  rewrite Forall_forall in Hgen. destruct (Hgen _ Hspan) as [_ Hends].
  apply ends_newline_first in Hends.
  destruct Hends as (_ & c & s' & Hskip & Hc). cbn [fst position] in *.
  symmetry in Hskip. apply skipn_cons_inv in Hskip.
  exists c. split; [apply Hskip | exact Hc].
Qed.

(** ** Errors and requests of the pipeline *)

Section Failures.

Variable world : Type.
Variable complete : request -> world -> option text * world.
Variable textstat : text -> option (list (text * Q)).

Lemma summarize_chunks_raises (target_word_count duration_minutes : Z)
      (chunks : list text) :
  forall (summaries : list text) (tr tr' : trace world) (e : exn),
    summarize_chunks complete chunks target_word_count duration_minutes
                     summaries tr = (Raises e, tr') ->
    e = APIError.
Proof.
  induction chunks as [|chunk rest IH]; intros summaries tr tr' e.
  - discriminate.
  - rewrite summarize_chunks_cons. cbn zeta.
    destruct (complete _ (service tr)) as [[content|] w].
    + apply IH.
    + intros H. now inversion H.
Qed.

Lemma create_openai_summary_raises (t : text)
      (target_word_count duration_minutes : Z) (tr tr' : trace world)
      (e : exn) :
  _create_openai_summary complete t target_word_count duration_minutes tr
  = (Raises e, tr') ->
  e = APIError.
Proof.
  rewrite create_openai_summary_run.
  destruct (summarize_chunks _ _ _ _ _ _) as [[summaries | e1] tr1] eqn:Hloop.
  - cbn zeta. destruct (too_long _ _); [|discriminate].
    destruct (complete _ (service tr1)) as [[content|] w]; [discriminate|].
    intros H. now inversion H.
  - intros H. inversion H; subst. now apply summarize_chunks_raises in Hloop.
Qed.

Lemma summarize_for_video_run (t : text) (target_duration_minutes : Z)
      (tr : trace world) :
  summarize_for_video complete textstat t target_duration_minutes tr
  = match _create_openai_summary complete (_clean_text t)
            (target_duration_minutes * 155) target_duration_minutes tr with
    | (Returns s, tr1) =>
        if is_nil s then (Raises (ValueError no_summary_msg), tr1)
        else (Returns
                (Result s (_extract_key_points (_clean_text t) s)
                        (_extract_key_topics (_clean_text t))
                        (_extract_sections (_clean_text t))
                        (word_count_of s) (target_duration_minutes * 155)
                        (_estimate_reading_time s)
                        (_calculate_reading_metrics textstat s)
                        (word_count_of t)), tr1)
    | (Raises e, tr1) => (Raises e, tr1)
    end.
Proof.
  unfold summarize_for_video, bind, lift, _calculate_target_word_count,
    words_per_minute.
  destruct (_create_openai_summary _ _ _ _ _) as [[s | e] tr1]; [|reflexivity].
  now destruct (is_nil s).
Qed.

Lemma summarize_for_video_raises (t : text) (target_duration_minutes : Z)
      (tr tr' : trace world) (e : exn) :
  summarize_for_video complete textstat t target_duration_minutes tr
  = (Raises e, tr') ->
  e = APIError \/ e = ValueError no_summary_msg.
Proof.
  rewrite summarize_for_video_run.
  destruct (_create_openai_summary _ _ _ _ _) as [[s | e1] tr1] eqn:Hrun.
  - destruct (is_nil s); [|discriminate]. intros H. inversion H. now right.
  - intros H. inversion H; subst. left.
    now apply create_openai_summary_raises in Hrun.
Qed.

(** X7.  A text that is cleaned to the empty string, summarized for a
    duration that is not negative, makes [summarize_for_video] raise the
    [ValueError] of the missing summary; no request is sent to the model. *)
Theorem empty_text_no_summary (t : text) (target_duration_minutes : Z)
        (tr : trace world) :
  _clean_text t = [] ->
  (0 <= target_duration_minutes)%Z ->
  summarize_for_video complete textstat t target_duration_minutes tr
  = (Raises (ValueError no_summary_msg), tr).
Proof.
  intros Hclean Hdur.
  rewrite summarize_for_video_run, Hclean, create_openai_summary_run.
  change (_split_text_into_chunks [] max_chunk_length) with (@nil text).
  cbn [summarize_chunks]. unfold ret. cbn zeta. cbn [str_join].
  destruct (too_long [] (target_duration_minutes * 155)) eqn:Hlong;
    [|reflexivity].
  apply too_long_iff in Hlong. change (word_count_of []) with 0%Z in Hlong.
  lia.
Qed.

(** X8.  When the model fails every request and the cleaned text has a
    token, [summarize_for_video] raises [APIError] after exactly one request,
    the one for the first chunk: a failed request is not repeated and no
    later chunk is sent. *)
Theorem failing_model_one_request (t : text) (target_duration_minutes : Z)
        (tr : trace world) :
  (forall rq w, fst (complete rq w) = None) ->
  str_split (_clean_text t) <> [] ->
  exists (first_chunk : text) (w : world),
    hd_error (_split_text_into_chunks (_clean_text t) max_chunk_length)
    = Some first_chunk
    /\ summarize_for_video complete textstat t target_duration_minutes tr
       = (Raises APIError,
          Trace w (calls tr
                   ++ [chunk_request (target_duration_minutes * 155)
                                     target_duration_minutes first_chunk])).
Proof.
  intros Hfail Htok.
  destruct (chunk_groups (_clean_text t) max_chunk_length)
    as (gs & Hne & Hcs & Hcat).
  destruct gs as [|g gs]; [simpl in Hcat; congruence|].
  rewrite summarize_for_video_run, create_openai_summary_run, Hcs.
  cbn [map hd_error]. rewrite summarize_chunks_cons. cbn zeta.
  pose proof (Hfail (chunk_request (target_duration_minutes * 155)
                                   target_duration_minutes
                                   (str_join [space] g)) (service tr)) as Hnone.
  destruct (complete _ (service tr)) as [answer w]. simpl in Hnone. subst answer.
  now exists (str_join [space] g), w.
Qed.

(** X9.  [summarize_for_video] raises nothing but [APIError], when
    [_create_openai_summary] raised it for a failed request, and the
    [ValueError] of the missing summary, when [_create_openai_summary]
    returned the empty string. *)
Theorem summarize_for_video_error_kinds (t : text)
        (target_duration_minutes : Z) (tr tr' : trace world) (e : exn) :
  summarize_for_video complete textstat t target_duration_minutes tr
  = (Raises e, tr') ->
  (e = APIError
   /\ _create_openai_summary complete (_clean_text t)
                             (target_duration_minutes * 155)
                             target_duration_minutes tr
      = (Raises APIError, tr'))
  \/ (e = ValueError no_summary_msg
      /\ _create_openai_summary complete (_clean_text t)
                                (target_duration_minutes * 155)
                                target_duration_minutes tr
         = (Returns [], tr')).
Proof.
  rewrite summarize_for_video_run.
  destruct (_create_openai_summary _ _ _ _ _) as [[s | e1] tr1] eqn:Hrun.
  - destruct s as [|c s]; cbn [is_nil]; [|discriminate].
    intros H. inversion H; subst. now right.
  - intros H. inversion H; subst. left.
    pose proof (create_openai_summary_raises _ _ _ _ Hrun) as ->.
    now split.
Qed.

(** X10.  A summary that [_create_openai_summary] returns without having
    sent a Shorten request has at most 1.2 times the target word count. *)
Theorem unshortened_summary_within_budget (t s : text)
        (target_word_count duration_minutes : Z) (tr tr' : trace world)
        (new : list request) :
  _create_openai_summary complete t target_word_count duration_minutes tr
  = (Returns s, tr') ->
  calls tr' = calls tr ++ new ->
  filter is_shorten new = [] ->
  (10 * word_count_of s <= 12 * target_word_count)%Z.
Proof.
  rewrite create_openai_summary_run.
  destruct (@summarize_chunks_calls world complete target_word_count
              duration_minutes
              (_split_text_into_chunks t max_chunk_length) [] tr)
    as (new1 & Hcalls & Hnone & _ & _).
  destruct (summarize_chunks _ _ _ _ _ _) as [[summaries | e1] tr1];
    [|discriminate].
  cbn [snd] in Hcalls. cbn zeta.
  destruct (too_long _ _) eqn:Hlong.
  - destruct (complete _ (service tr1)) as [[content|] w]; [|discriminate].
    intros H Hnew Hfilter. inversion H; subst. cbn [calls] in Hnew.
    rewrite Hcalls, <- app_assoc in Hnew. apply app_inv_head in Hnew.
    subst new. rewrite filter_app in Hfilter. cbn in Hfilter.
    apply app_eq_nil in Hfilter. destruct Hfilter as [_ Hfilter].
    discriminate Hfilter.
  - intros H _ _. inversion H; subst.
    destruct (Z_lt_le_dec (12 * target_word_count)
                          (10 * word_count_of (str_join [space] summaries)))
      as [Hlt | Hle]; [|lia].
    apply too_long_iff in Hlt. congruence.
Qed.

(** *** [process_pdf] *)

Variable path_exists : text -> bool.
Variable extract_text : text -> outcome text.

(** X11.  [process_pdf] sends a request to the model only for an existing
    path with the extension [.pdf] whose extracted text has at least 100
    characters after trimming. *)
Theorem process_pdf_requests_after_validation (pdf_path : text)
        (duration_minutes : Z) (tr tr' : trace world) (o : outcome result) :
  process_pdf complete textstat path_exists extract_text pdf_path
              duration_minutes tr = (o, tr') ->
  calls tr' <> calls tr ->
  path_exists pdf_path = true
  /\ ends_with (str ".pdf") (lower pdf_path) = true
  /\ exists extracted_text,
       extract_text pdf_path = Returns extracted_text
       /\ (100 <= len (strip extracted_text))%Z.
Proof.
  unfold process_pdf.
  destruct (path_exists pdf_path); cbn [negb];
    [|intros H; inversion H; congruence].
  destruct (ends_with _ _); cbn [negb];
    [|intros H; inversion H; congruence].
  unfold bind, lift.
  destruct (extract_text pdf_path) as [extracted_text | e];
    [|intros H; inversion H; congruence].
  destruct (is_nil extracted_text); cbn [orb];
    [intros H; inversion H; congruence|].
  destruct (len (strip extracted_text) <? 100)%Z eqn:Hlen;
    [intros H; inversion H; congruence|].
  intros _ _. apply Z.ltb_ge in Hlen.
  split; [reflexivity|]. split; [reflexivity|]. now exists extracted_text.
Qed.


End Failures.

(** Runs that meet the hypotheses of the statements above *)

(** Two number signs between spaces are cleaned to nothing. *)
Lemma empty_text_no_summary_witness :
  _clean_text (str " ## ") = []
  /\ (0 <= 15)%Z
  /\ summarize_for_video (stub_model (str "A short summary.")) no_textstat
                         (str " ## ") 15 fresh
     = (Raises (ValueError no_summary_msg), fresh).
Proof.
  assert (H1 : _clean_text (str " ## ") = []) by reflexivity.
  assert (H2 : (0 <= 15)%Z) by discriminate.
  split; [exact H1|]. split; [exact H2|].
  exact (empty_text_no_summary (stub_model (str "A short summary."))
                               no_textstat (str " ## ") fresh H1 H2).
Defined.

Lemma failing_model_one_request_witness :
  (forall rq w, fst (failing_model rq w) = None)
  /\ str_split (_clean_text sample_document) <> []
  /\ exists (first_chunk : text) (w : unit),
       hd_error (_split_text_into_chunks (_clean_text sample_document)
                                         max_chunk_length)
       = Some first_chunk
       /\ summarize_for_video failing_model no_textstat sample_document 15
                              fresh
          = (Raises APIError,
             Trace w (calls fresh
                      ++ [chunk_request (15 * 155) 15 first_chunk])).
Proof.
  assert (H1 : forall rq w, fst (failing_model rq w) = None)
    by (intros rq w; reflexivity).
  assert (H2 : str_split (_clean_text sample_document) <> [])
    by (vm_compute; discriminate).
  split; [exact H1|]. split; [exact H2|].
  exact (@failing_model_one_request unit failing_model no_textstat
           sample_document 15 fresh H1 H2).
Defined.

Lemma summarize_for_video_error_kinds_witness :
  exists (e : exn) (tr' : trace unit),
    summarize_for_video failing_model no_textstat sample_document 15 fresh
    = (Raises e, tr')
    /\ ((e = APIError
         /\ _create_openai_summary failing_model (_clean_text sample_document)
                                   (15 * 155) 15 fresh
            = (Raises APIError, tr'))
        \/ (e = ValueError no_summary_msg
            /\ _create_openai_summary failing_model
                                      (_clean_text sample_document)
                                      (15 * 155) 15 fresh
               = (Returns [], tr'))).
Proof.
  destruct (summarize_for_video failing_model no_textstat sample_document 15
                                fresh) as [[r | e] tr'] eqn:Hrun.
  - vm_compute in Hrun. discriminate Hrun.
  - exists e, tr'. split; [reflexivity|].
    exact (@summarize_for_video_error_kinds unit _ _ _ _ _ _ _ Hrun).
Defined.

Lemma unshortened_summary_within_budget_witness :
  _create_openai_summary (stub_model (str "A short summary."))
                         fifty_characters 2325 15 fresh
  = (Returns (str "A short summary."),
     Trace tt [chunk_request 2325 15 fifty_characters])
  /\ calls (Trace tt [chunk_request 2325 15 fifty_characters])
     = calls fresh ++ [chunk_request 2325 15 fifty_characters]
  /\ filter is_shorten [chunk_request 2325 15 fifty_characters] = []
  /\ (10 * word_count_of (str "A short summary.") <= 12 * 2325)%Z.
Proof.
  assert (H1 : _create_openai_summary (stub_model (str "A short summary."))
                 fifty_characters 2325 15 fresh
               = (Returns (str "A short summary."),
                  Trace tt [chunk_request 2325 15 fifty_characters]))
    by (vm_compute; reflexivity).
  assert (H2 : calls (Trace tt [chunk_request 2325 15 fifty_characters])
               = calls fresh ++ [chunk_request 2325 15 fifty_characters])
    by reflexivity.
  assert (H3 : filter is_shorten [chunk_request 2325 15 fifty_characters] = [])
    by reflexivity.
  split; [exact H1|]. split; [exact H2|]. split; [exact H3|].
  exact (@unshortened_summary_within_budget unit _ _ _ _ _ _ _ _ H1 H2 H3).
Defined.

Lemma process_pdf_requests_after_validation_witness :
  exists (o : outcome result) (tr' : trace unit),
    process_pdf (stub_model (str "A short summary.")) no_textstat
                (fun _ => true) (fun _ => Returns sample_document)
                (str "report.PDF") 15 fresh
    = (o, tr')
    /\ calls tr' <> calls fresh
    /\ (fun _ : text => true) (str "report.PDF") = true
    /\ ends_with (str ".pdf") (lower (str "report.PDF")) = true
    /\ exists extracted_text,
         (fun _ : text => Returns sample_document) (str "report.PDF")
         = Returns extracted_text
         /\ (100 <= len (strip extracted_text))%Z.
Proof.
  destruct (process_pdf (stub_model (str "A short summary.")) no_textstat
              (fun _ => true) (fun _ => Returns sample_document)
              (str "report.PDF") 15 fresh) as [o tr'] eqn:Hrun.
  assert (Hcalls : calls tr' <> calls fresh).
  { pose proof Hrun as Hrun'. vm_compute in Hrun'.
    inversion Hrun' as [[Ho Htr]]. discriminate. }
  exists o, tr'. split; [reflexivity|]. split; [exact Hcalls|].
  exact (@process_pdf_requests_after_validation unit _ _ _ _ _ _ _ _ _
           Hrun Hcalls).
Defined.


(** ** The extractor *)

Lemma extract_text_raises (plumber pypdf2 : text -> text)
      (pdf_path : text) (e : exn) :
  PDFExtractor.extract_text plumber pypdf2 pdf_path = Raises e ->
  e = ExtractionError.
Proof.
  unfold PDFExtractor.extract_text.
  destruct (PDFExtractor.meaningful (plumber pdf_path)); [discriminate|].
  destruct (PDFExtractor.meaningful (pypdf2 pdf_path)); [discriminate|].
  intros H. now inversion H.
Qed.

Lemma not_meaningful_short (t : text) :
  PDFExtractor.meaningful t = false -> (len (strip t) <= 100)%Z.
Proof.
  unfold PDFExtractor.meaningful. destruct t as [|c t].
  - intros _. vm_compute. discriminate.
  - cbn [is_nil negb andb]. apply Z.ltb_ge.
Qed.

(** X13.  [PDFExtractor.extract_text] returns the text of the first
    library, or that of the second one when the first gives too little, and
    only ever a text with more than 100 characters after trimming; it raises
    exactly when both libraries give at most 100 characters. *)
Theorem extract_text_outcomes (plumber pypdf2 : text -> text)
        (pdf_path : text) :
  match PDFExtractor.extract_text plumber pypdf2 pdf_path with
  | Returns t =>
      (100 < len (strip t))%Z
      /\ (t = plumber pdf_path
          \/ (t = pypdf2 pdf_path
              /\ (len (strip (plumber pdf_path)) <= 100)%Z))
  | Raises e =>
      e = ExtractionError
      /\ (len (strip (plumber pdf_path)) <= 100)%Z
      /\ (len (strip (pypdf2 pdf_path)) <= 100)%Z
  end.
Proof.
  destruct (PDFExtractor.extract_text plumber pypdf2 pdf_path) as [t | e] eqn:H.
  - split; [now apply extract_text_meaningful in H|].
    unfold PDFExtractor.extract_text in H.
    destruct (PDFExtractor.meaningful (plumber pdf_path)) eqn:H1.
    + left. now inversion H.
    + destruct (PDFExtractor.meaningful (pypdf2 pdf_path)); [|discriminate].
      right. split; [now inversion H | now apply not_meaningful_short].
  - split; [now apply extract_text_raises in H|].
    unfold PDFExtractor.extract_text in H.
    destruct (PDFExtractor.meaningful (plumber pdf_path)) eqn:H1;
      [discriminate|].
    destruct (PDFExtractor.meaningful (pypdf2 pdf_path)) eqn:H2;
      [discriminate|].
    split; now apply not_meaningful_short.
Qed.

Lemma value_error_messages_differ :
  ValueError no_summary_msg <> ValueError insufficient_text_msg
  /\ ValueError not_a_pdf_msg <> ValueError insufficient_text_msg.
Proof.
  split; intros H; inversion H as [H1]; vm_compute in H1; discriminate H1.
Qed.

(** X14.  With [PDFExtractor.extract_text] as its extractor, [process_pdf]
    never raises the [ValueError] of insufficient text: the extractor has
    already refused every text that the guard would refuse. *)
Theorem insufficient_text_guard_unreachable
        (world : Type) (complete : request -> world -> option text * world)
        (textstat : text -> option (list (text * Q)))
        (path_exists : text -> bool) (plumber pypdf2 : text -> text)
        (pdf_path : text) (duration_minutes : Z) (tr : trace world) :
  fst (process_pdf complete textstat path_exists
                   (PDFExtractor.extract_text plumber pypdf2)
                   pdf_path duration_minutes tr)
  <> Raises (ValueError insufficient_text_msg).
Proof.
  destruct value_error_messages_differ as [Hmsg1 Hmsg2].
  unfold process_pdf.
  destruct (path_exists pdf_path); cbn [negb]; [|discriminate].
  destruct (ends_with _ _); cbn [negb];
    [|cbn [fst raise]; intros H; apply Hmsg2; congruence].
  unfold bind, lift.
  destruct (PDFExtractor.extract_text plumber pypdf2 pdf_path)
    as [t | e] eqn:Hext.
  - pose proof (extract_text_meaningful _ _ _ Hext) as Hlen.
    destruct t as [|c t]; [vm_compute in Hlen; discriminate Hlen|].
    cbn [is_nil orb].
    rewrite (proj2 (Z.ltb_ge _ _)) by lia.
    destruct (summarize_for_video _ _ _ _ _) as [[r | e] tr'] eqn:Hrun;
      [discriminate|].
    cbn [fst]. apply summarize_for_video_raises in Hrun.
    destruct Hrun as [-> | ->]; [discriminate|].
    intros H. apply Hmsg1. congruence.
  - apply extract_text_raises in Hext. subst e. discriminate.
Qed.

(** ** Reading time *)

(** X15.  A text with exactly the target word count of a duration has an
    estimated reading time of that duration. *)
Theorem reading_time_of_target (duration_minutes n : Z) (s : text) :
  _calculate_target_word_count duration_minutes = Returns n ->
  word_count_of s = n ->
  Qeq (_estimate_reading_time s) (inject_Z duration_minutes).
Proof.
  unfold _calculate_target_word_count, words_per_minute. intros Hn Hs.
  inversion Hn as [Hn']. rewrite <- Hn' in Hs. clear Hn Hn'.
  unfold _estimate_reading_time, words_per_minute, round1, Qdiv, Qmult, Qinv,
    inject_Z.
  cbn [Qnum Qden]. rewrite Hs.
  change (Zpos (1 * 155)) with 155%Z.
  replace (duration_minutes * 155 * 1 * 10)%Z
    with (duration_minutes * 10 * 155)%Z by lia.
  rewrite Z.div_mul by discriminate. rewrite Z.mod_mul by discriminate.
  cbn [Z.mul Z.ltb Z.compare]. unfold Qeq. cbn [Qnum Qden]. lia.
Qed.

Lemma reading_time_of_target_witness :
  _calculate_target_word_count 1 = Returns 155%Z
  /\ word_count_of one_minute_of_words = 155%Z
  /\ Qeq (_estimate_reading_time one_minute_of_words) (inject_Z 1).
Proof.
  assert (H1 : _calculate_target_word_count 1 = Returns 155%Z) by reflexivity.
  assert (H2 : word_count_of one_minute_of_words = 155%Z)
    by (vm_compute; reflexivity).
  split; [exact H1|]. split; [exact H2|].
  exact (reading_time_of_target one_minute_of_words H1 H2).
Defined.

Lemma estimate_tenths (s : text) :
  exists k : Z,
    _estimate_reading_time s = Qmake k 10
    /\ (Z.abs (20 * word_count_of s - 310 * k) <= 155)%Z.
Proof.
  unfold _estimate_reading_time, words_per_minute.
  destruct (round1_nearest (word_count_of s * 1) (1 * 155)) as (k & Hk & Hnear).
  exists k. split; [exact Hk|].
  change (Zpos (1 * 155)) with 155%Z in Hnear. lia.
Qed.

(** X16.  The estimated reading time never decreases when the number of
    words grows. *)
Theorem reading_time_monotone (a b : text) :
  (word_count_of a <= word_count_of b)%Z ->
  Qle (_estimate_reading_time a) (_estimate_reading_time b).
Proof.
  intros Hle.
  destruct (estimate_tenths a) as (ka & -> & Ha).
  destruct (estimate_tenths b) as (kb & -> & Hb).
  unfold Qle. cbn [Qnum Qden]. lia.
Qed.

Lemma reading_time_monotone_witness :
  (word_count_of fifty_characters <= word_count_of one_minute_of_words)%Z
  /\ Qle (_estimate_reading_time fifty_characters)
         (_estimate_reading_time one_minute_of_words).
Proof.
  assert (H : (word_count_of fifty_characters
               <= word_count_of one_minute_of_words)%Z)
    by (vm_compute; discriminate).
  split; [exact H|]. exact (reading_time_monotone _ _ H).
Defined.

(** ** [clean_filename] and [truncate_text] *)

Example clean_filename_of_a_path :
  Utils.clean_filename (str " my report: v1/2 .") = str "my_report__v1_2".
Proof. vm_compute. reflexivity. Qed.

Example clean_filename_of_dots : Utils.clean_filename (str "..") = str "unnamed_file".
Proof. vm_compute. reflexivity. Qed.

(** With a limit shorter than the suffix the slice counts from the end and
    the result is longer than the limit. *)
Example truncate_below_suffix :
  Utils.truncate_text (str "abcdefgh") 2 (str "...") = str "abcdefg...".
Proof. vm_compute. reflexivity. Qed.

Lemma re_sub_nil_lits (r : regex) (s : text) :
  re_sub r [] s = lits (scan r None s 0 0).
Proof.
  unfold re_sub. induction (scan r None s 0 0) as [|[c | a b] its IH]; simpl;
    congruence.
Qed.

Lemma lits_incl (r : regex) (s : text) (c : ascii) :
  In c (lits (scan r None s 0 0)) -> In c s.
Proof.
  rewrite <- re_sub_nil_lits. intros H.
  apply re_sub_chars in H. now destruct H.
Qed.

Lemma scan_chr_no_match (p : cclass) (s : text) :
  Forall (fun c => p c = false) s ->
  forall (prev : option ascii) (pos : nat),
    scan (Chr p) prev s pos 0 = map Lit s.
Proof.
  induction 1 as [|c s Hc Hs IH]; intros prev pos; cbn [scan ends];
    [reflexivity|].
  rewrite Hc. cbn [hits map last Nat.eqb pred app]. now rewrite IH.
Qed.

Lemma scan_rep_no_match (p : cclass) (s : text) :
  Forall (fun c => p c = false) s ->
  forall (prev : option ascii) (pos : nat),
    scan (Rep p 1) prev s pos 0 = map Lit s.
Proof.
  induction 1 as [|c s Hc Hs IH]; intros prev pos; cbn [scan ends run];
    [reflexivity|].
  rewrite Hc. cbn [Nat.leb hits map last Nat.eqb pred app]. now rewrite IH.
Qed.

Lemma sub_of_lits (repl s : text) :
  flat_map (fun it => match it with Lit c => [c] | Hit _ _ => repl end)
           (map Lit s) = s.
Proof. induction s as [|c s IH]; simpl; congruence. Qed.

Lemma lstrip_chars_head (chars : cclass) (s : text) (c : ascii) :
  hd_error (Utils.lstrip_chars chars s) = Some c -> chars c = false.
Proof.
  induction s as [|d s IH]; simpl; [discriminate|].
  destruct (chars d) eqn:Hd; [exact IH|].
  simpl. intros H. inversion H; subst. exact Hd.
Qed.

Lemma lstrip_chars_suffix (chars : cclass) (s : text) :
  exists p, s = p ++ Utils.lstrip_chars chars s.
Proof.
  induction s as [|d s [p IH]]; simpl; [now exists []|].
  destruct (chars d); [|now exists []].
  exists (d :: p). simpl. now rewrite <- IH.
Qed.

Lemma lstrip_chars_fixed (chars : cclass) (s : text) :
  (forall c, hd_error s = Some c -> chars c = false) ->
  Utils.lstrip_chars chars s = s.
Proof.
  destruct s as [|d s]; [reflexivity|]. simpl. intros H.
  now rewrite (H d eq_refl).
Qed.

Lemma strip_chars_ends (chars : cclass) (s : text) :
  (forall c, hd_error (Utils.strip_chars chars s) = Some c -> chars c = false)
  /\ (forall c, hd_error (rev (Utils.strip_chars chars s)) = Some c ->
        chars c = false).
Proof.
  unfold Utils.strip_chars. split; intros c.
  - destruct (lstrip_chars_suffix chars (rev (Utils.lstrip_chars chars s)))
      as [p Hp].
    assert (Hy : Utils.lstrip_chars chars s
                 = rev (Utils.lstrip_chars chars
                          (rev (Utils.lstrip_chars chars s))) ++ rev p).
    { rewrite <- rev_app_distr, <- Hp. symmetry. apply rev_involutive. }
    destruct (rev (Utils.lstrip_chars chars
                     (rev (Utils.lstrip_chars chars s)))) as [|d z];
      [discriminate|].
    simpl. intros H. inversion H; subst.
    apply (lstrip_chars_head chars s). now rewrite Hy.
  - rewrite rev_involutive. apply lstrip_chars_head.
Qed.

Lemma strip_chars_incl (chars : cclass) (s : text) (c : ascii) :
  In c (Utils.strip_chars chars s) -> In c s.
Proof.
  assert (Hl : forall x, In c (Utils.lstrip_chars chars x) -> In c x).
  { intros x. destruct (lstrip_chars_suffix chars x) as [p Hp].
    intros H. rewrite Hp. apply in_or_app. now right. }
  unfold Utils.strip_chars. intros H.
  apply in_rev in H. apply Hl in H. apply in_rev in H. now apply Hl.
Qed.

Lemma clean_filename_clean (filename : text) :
  clean_name (Utils.clean_filename filename).
Proof.
  unfold Utils.clean_filename. cbn zeta.
  set (s1 := re_sub (Chr Utils.invalid_char) (str "_") filename).
  set (s2 := re_sub whitespace_run (str "_") s1).
  destruct (Utils.strip_chars (one_of "._") s2) as [|d z] eqn:Hs3; cbn [is_nil].
  - split; [discriminate|]. split; [|split].
    + repeat (constructor; [split; reflexivity|]). constructor.
    + intros c H. inversion H. reflexivity.
    + intros c H. inversion H. reflexivity.
  - rewrite <- Hs3. split; [rewrite Hs3; discriminate|]. split.
    + apply Forall_forall. intros c Hc. apply strip_chars_incl in Hc.
      assert (Hs1 : forall x, In x s1 -> Utils.invalid_char x = false).
      { intros x Hx. apply sub_chars_lits in Hx.
        destruct Hx as [[<- | []] | Hx]; [reflexivity|].
        pose proof (scan_chr_lits Utils.invalid_char filename None 0 0) as Hl.
        rewrite Forall_forall in Hl. now apply Hl. }
      apply sub_chars_lits in Hc. destruct Hc as [[<- | []] | Hc].
      * split; reflexivity.
      * split; [apply Hs1; now apply lits_incl in Hc|].
        pose proof (scan_rep_lits is_space s1 None 0 0) as Hl.
        rewrite Forall_forall in Hl. now apply Hl.
    + apply strip_chars_ends.
Qed.

(** X17.  [clean_filename] returns a name that is not empty, has none of
    the characters it replaces and no whitespace, and neither starts nor ends
    with a dot or an underscore; cleaning a cleaned name changes nothing. *)
Theorem clean_filename_idempotent (filename : text) :
  clean_name (Utils.clean_filename filename)
  /\ Utils.clean_filename (Utils.clean_filename filename)
     = Utils.clean_filename filename.
Proof.
  pose proof (clean_filename_clean filename) as Hclean.
  split; [exact Hclean|].
  destruct Hclean as (Hne & Hchars & Hhd & Hlast).
  set (s := Utils.clean_filename filename) in *.
  unfold Utils.clean_filename. cbn zeta.
  assert (H1 : re_sub (Chr Utils.invalid_char) (str "_") s = s).
  { unfold re_sub. rewrite scan_chr_no_match; [apply sub_of_lits|].
    eapply Forall_impl; [|exact Hchars]. now intros c [H _]. }
  rewrite H1.
  assert (H2 : re_sub whitespace_run (str "_") s = s).
  { unfold re_sub, whitespace_run. rewrite scan_rep_no_match; [apply sub_of_lits|].
    eapply Forall_impl; [|exact Hchars]. now intros c [_ H]. }
  rewrite H2.
  assert (H3 : Utils.strip_chars (one_of "._") s = s).
  { unfold Utils.strip_chars. rewrite (lstrip_chars_fixed _ _ Hhd).
    rewrite (lstrip_chars_fixed _ _ Hlast). apply rev_involutive. }
  rewrite H3. destruct s; [congruence | reflexivity].
Qed.

Lemma len_firstn (n : nat) (s : text) :
  len (firstn n s) = Z.min (Z.of_nat n) (len s).
Proof. unfold len. rewrite length_firstn. lia. Qed.

(** X18.  When the suffix is not longer than the limit, [truncate_text]
    returns at most [max_length] characters: the text itself if it fits,
    otherwise a beginning of the text followed by the suffix, exactly
    [max_length] characters in all. *)
Theorem truncate_text_bound (t suffix : text) (max_length : Z) :
  (len suffix <= max_length)%Z ->
  (len (Utils.truncate_text t max_length suffix) <= max_length)%Z
  /\ ((len t <= max_length)%Z -> Utils.truncate_text t max_length suffix = t)
  /\ ((max_length < len t)%Z ->
      len (Utils.truncate_text t max_length suffix) = max_length
      /\ Utils.truncate_text t max_length suffix
         = firstn (Z.to_nat (max_length - len suffix)) t ++ suffix).
Proof.
  intros Hsuf. unfold Utils.truncate_text, Utils.slice_to.
  destruct (Z.leb_spec (len t) max_length) as [Hfit | Hlong].
  - split; [exact Hfit|]. split; [reflexivity | lia].
  - destruct (Z.ltb_spec (max_length - len suffix) 0) as [Hneg | Hpos]; [lia|].
    assert (Hlen : len (firstn (Z.to_nat (max_length - len suffix)) t ++ suffix)
                   = max_length).
    { rewrite len_app, len_firstn. pose proof (len_nonneg suffix). lia. }
    split; [lia|]. split; [lia|]. intros _. split; [exact Hlen | reflexivity].
Qed.

Lemma truncate_text_bound_witness :
  (len (str "...") <= 6)%Z
  /\ (len (Utils.truncate_text (str "abcdefgh") 6 (str "...")) <= 6)%Z
  /\ ((len (str "abcdefgh") <= 6)%Z ->
      Utils.truncate_text (str "abcdefgh") 6 (str "...") = str "abcdefgh")
  /\ ((6 < len (str "abcdefgh"))%Z ->
      len (Utils.truncate_text (str "abcdefgh") 6 (str "...")) = 6%Z
      /\ Utils.truncate_text (str "abcdefgh") 6 (str "...")
         = firstn (Z.to_nat (6 - len (str "..."))) (str "abcdefgh")
           ++ str "...").
Proof.
  assert (H : (len (str "...") <= 6)%Z) by (vm_compute; discriminate).
  split; [exact H|].
  exact (@truncate_text_bound (str "abcdefgh") (str "...") 6 H).
Defined.

(** ** Greedy packing *)

Lemma adjacent_full_snoc (max_length : Z) (gs : list (list text))
      (g h : list text) :
  adjacent_full max_length (gs ++ [g]) ->
  (max_length <= len (str_join [space] g) + 1 + len (hd [] h))%Z ->
  adjacent_full max_length ((gs ++ [g]) ++ [h]).
Proof.
  intros Hold Hnew i a b Ha Hb.
  destruct (Nat.lt_ge_cases (S i) (length (gs ++ [g]))) as [Hlt | Hge].
  - rewrite nth_error_app1 in Ha, Hb by lia. now apply (Hold i).
  - rewrite (nth_error_app2 _ _ Hge) in Hb.
    assert (Hi : S i = length (gs ++ [g])).
    { destruct (S i - length (gs ++ [g])) as [|[|k]] eqn:Hk;
        simpl in Hb; try discriminate. lia. }
    rewrite Hi, Nat.sub_diag in Hb. simpl in Hb. inversion Hb; subst b.
    rewrite length_app in Hi. simpl in Hi.
    rewrite nth_error_app1 in Ha by (rewrite length_app; simpl; lia).
    rewrite nth_error_app2 in Ha by lia.
    replace (i - length gs) with 0 in Ha by lia.
    simpl in Ha. inversion Ha; subst a. exact Hnew.
Qed.

Lemma adjacent_full_last (max_length : Z) (gs : list (list text))
      (g g' : list text) :
  adjacent_full max_length (gs ++ [g]) -> hd [] g' = hd [] g ->
  adjacent_full max_length (gs ++ [g']).
Proof.
  intros Hold Hhd i a b Ha Hb.
  destruct (Nat.lt_ge_cases (S i) (length gs)) as [Hlt | Hge].
  - rewrite nth_error_app1 in Ha, Hb by lia.
    apply (Hold i); rewrite nth_error_app1 by lia; assumption.
  - rewrite (nth_error_app2 _ _ Hge) in Hb.
    destruct (S i - length gs) as [|k] eqn:Hk;
      [|destruct k; simpl in Hb; discriminate].
    simpl in Hb. inversion Hb; subst b.
    rewrite nth_error_app1 in Ha by lia. rewrite Hhd.
    apply (Hold i).
    + rewrite nth_error_app1 by lia. exact Ha.
    + rewrite nth_error_app2 by lia. now rewrite Hk.
Qed.

Lemma chunk_step_full (max_length : Z) (st : chunker) (word : text) :
  chunk_full_inv max_length st -> token word ->
  chunk_full_inv max_length (chunk_step max_length st word).
Proof.
  intros (gs & Hch & Hgs & Htok & Hlen & Hnil & Hadj) Hword.
  unfold chunk_step.
  destruct (current_chunk st) as [|w cur] eqn:Hcur.
  - rewrite andb_false_r. destruct (Hnil eq_refl) as [-> Hzero].
    exists []. cbn [chunks current_chunk current_length app str_join].
    split; [exact Hch|]. split; [constructor|].
    split; [constructor; [exact Hword | constructor]|].
    split; [lia|]. split; [discriminate|].
    intros [|i] g h Hg Hh; simpl in Hh; [discriminate|].
    destruct i; discriminate.
  - destruct (current_length st + len word + 1 >? max_length)%Z eqn:Hcmp;
      cbn [andb negb is_nil].
    + exists (gs ++ [w :: cur]).
      cbn [chunks current_chunk current_length str_join].
      rewrite Z.gtb_ltb in Hcmp. apply Z.ltb_lt in Hcmp.
      split; [now rewrite Hch, map_app|].
      split; [apply Forall_app; split; [exact Hgs | now constructor]|].
      split; [constructor; [exact Hword | constructor]|].
      split; [lia|]. split; [discriminate|].
      apply adjacent_full_snoc; [exact Hadj|]. cbn [hd]. lia.
    + exists gs. cbn [chunks current_chunk current_length].
      split; [exact Hch|]. split; [exact Hgs|].
      split; [apply Forall_app; split;
              [exact Htok | constructor; [exact Hword | constructor]]|].
      split.
      { rewrite str_join_snoc by discriminate. rewrite len_app.
        change (len (space :: word)) with (Z.of_nat (S (length word))).
        unfold len in *. lia. }
      split; [discriminate|].
      apply (@adjacent_full_last max_length gs (w :: cur) ((w :: cur) ++ [word]));
        [exact Hadj | reflexivity].
Qed.

Lemma chunk_loop_full (max_length : Z) (ws : list text) (st : chunker) :
  chunk_full_inv max_length st -> Forall token ws ->
  chunk_full_inv max_length (fold_left (chunk_step max_length) ws st).
Proof.
  revert st. induction ws as [|w ws IH]; intros st Hinv Hws; [exact Hinv|].
  inversion Hws; subst. simpl. apply IH; [|assumption].
  now apply chunk_step_full.
Qed.

(** X19.  The packing is greedy: a chunk that is followed by another one
    could not have taken the first token of its successor, since with a
    separator and that token it would have at least [max_length]
    characters. *)
Theorem chunks_greedy (t : text) (max_length : Z) (i : nat) (c d : text) :
  nth_error (_split_text_into_chunks t max_length) i = Some c ->
  nth_error (_split_text_into_chunks t max_length) (S i) = Some d ->
  (max_length <= len c + 1 + len (hd [] (str_split d)))%Z.
Proof.
  unfold _split_text_into_chunks.
  assert (Hinv : chunk_full_inv max_length
                   (fold_left (chunk_step max_length) (str_split t)
                              (Chunker [] [] 0%Z))).
  { apply chunk_loop_full; [|apply str_split_tokens].
    exists []. cbn [chunks current_chunk current_length app str_join].
    split; [reflexivity|]. split; [constructor|]. split; [constructor|].
    split; [change (len []) with 0%Z; lia|]. split; [auto|].
    intros [|k] g h Hg Hh; simpl in Hh; [discriminate | destruct k; discriminate]. }
  destruct Hinv as (gs & Hch & Hgs & Htok & _ & Hnil & Hadj).
  unfold chunk_flush.
  assert (Hall : forall gs', Forall (Forall token) gs' ->
            adjacent_full max_length gs' ->
            nth_error (map (str_join [space]) gs') i = Some c ->
            nth_error (map (str_join [space]) gs') (S i) = Some d ->
            (max_length <= len c + 1 + len (hd [] (str_split d)))%Z).
  { intros gs' Htoks Hfull Hc Hd.
    rewrite nth_error_map in Hc, Hd.
    destruct (nth_error gs' i) as [g|] eqn:Hg; [|discriminate].
    destruct (nth_error gs' (S i)) as [h|] eqn:Hh; [|discriminate].
    simpl in Hc, Hd. inversion Hc; inversion Hd; subst c d.
    rewrite Forall_forall in Htoks.
    rewrite (str_split_join (Htoks h (nth_error_In _ _ Hh))).
    now apply (Hfull i). }
  destruct (current_chunk _) as [|w cur] eqn:Hcur; cbn [is_nil].
  - destruct (Hnil eq_refl) as [-> _]. rewrite Hch. simpl.
    destruct i; discriminate.
  - rewrite Hch.
    change [str_join [space] (w :: cur)]
      with (map (str_join [space]) [w :: cur]).
    rewrite <- map_app. apply Hall; [|exact Hadj].
    apply Forall_app. split; [exact Hgs | now constructor].
Qed.

Lemma chunks_greedy_witness :
  nth_error (_split_text_into_chunks (str "aaa bbb ccc ddddddddddd e f") 7) 0
  = Some (str "aaa")
  /\ nth_error (_split_text_into_chunks (str "aaa bbb ccc ddddddddddd e f") 7) 1
     = Some (str "bbb ccc")
  /\ (7 <= len (str "aaa") + 1 + len (hd [] (str_split (str "bbb ccc"))))%Z.
Proof.
  assert (H0 : nth_error (_split_text_into_chunks
                            (str "aaa bbb ccc ddddddddddd e f") 7) 0
               = Some (str "aaa")) by (vm_compute; reflexivity).
  assert (H1 : nth_error (_split_text_into_chunks
                            (str "aaa bbb ccc ddddddddddd e f") 7) 1
               = Some (str "bbb ccc")) by (vm_compute; reflexivity).
  split; [exact H0|]. split; [exact H1|].
  exact (@chunks_greedy (str "aaa bbb ccc ddddddddddd e f") 7 0
           (str "aaa") (str "bbb ccc") H0 H1).
Defined.

(** ** The sections of the speech generator *)

Example sections_of_two_paragraphs :
  VoiceGenerator._extract_text_sections
    (str "  First part. " ++ newline :: newline :: newline
         :: str "Second part." ++ [newline; newline])
  = [str "First part. Second part."].
Proof. vm_compute. reflexivity. Qed.

Lemma lstrip_blank_prefix (s : text) :
  exists p, s = p ++ lstrip s /\ forallb is_space p = true.
Proof.
  induction s as [|d s (p & IH & Hp)]; simpl; [now exists []|].
  destruct (is_space d) eqn:Hd; [|now exists []].
  exists (d :: p). simpl. rewrite Hd, Hp. split; [now rewrite <- IH | reflexivity].
Qed.

Lemma lstrip_fixed (s : text) :
  (forall c, hd_error s = Some c -> is_space c = false) -> lstrip s = s.
Proof.
  destruct s as [|d s]; [reflexivity|]. simpl. intros H.
  now rewrite (H d eq_refl).
Qed.

Lemma strip_fixed (s : text) : trimmed s -> strip s = s.
Proof.
  intros [Hhd Hlast]. unfold strip.
  rewrite (lstrip_fixed _ Hhd), (lstrip_fixed _ Hlast). apply rev_involutive.
Qed.

Lemma lstrip_length (s : text) : length (lstrip s) <= length s.
Proof.
  induction s as [|d s IH]; simpl; [lia|].
  destruct (is_space d); simpl; lia.
Qed.

Lemma strip_length (s : text) : length (strip s) <= length s.
Proof.
  unfold strip. rewrite length_rev.
  etransitivity; [apply lstrip_length|]. rewrite length_rev.
  apply lstrip_length.
Qed.

Lemma lstrip_nonblank (s : text) (c : ascii) :
  In c s -> is_space c = false -> In c (lstrip s).
Proof.
  induction s as [|d s IH]; simpl; [tauto|].
  intros [<- | Hin] Hc.
  - rewrite Hc. now left.
  - destruct (is_space d); [now apply IH | now right].
Qed.

Lemma strip_nonblank (s : text) (c : ascii) :
  In c s -> is_space c = false -> In c (strip s).
Proof.
  intros Hin Hc. unfold strip. apply -> in_rev.
  apply lstrip_nonblank; [|exact Hc]. apply -> in_rev.
  now apply lstrip_nonblank.
Qed.

Lemma lstrip_snoc_nonblank (s : text) (c : ascii) :
  lstrip s <> [] -> lstrip (s ++ [c]) = lstrip s ++ [c].
Proof.
  induction s as [|d s IH]; simpl; [congruence|].
  destruct (is_space d); [exact IH | reflexivity].
Qed.

Lemma strip_snoc_space (s : text) : strip (s ++ [space]) = strip s.
Proof.
  unfold strip. destruct (lstrip s) as [|d z] eqn:Hs.
  - assert (Hblank : lstrip (s ++ [space]) = []).
    { clear -Hs. induction s as [|d s IH]; simpl in *; [reflexivity|].
      destruct (is_space d); [now apply IH | discriminate]. }
    now rewrite Hblank.
  - rewrite lstrip_snoc_nonblank by congruence. rewrite Hs.
    rewrite rev_app_distr. reflexivity.
Qed.

Lemma paragraphs_like (t : text) :
  Forall paragraph_like (VoiceGenerator.paragraphs_of t).
Proof.
  unfold VoiceGenerator.paragraphs_of. apply Forall_forall. intros p Hp.
  apply in_map_iff in Hp. destruct Hp as (x & <- & Hx).
  apply filter_In in Hx. destruct Hx as [_ Hne].
  split; [|apply strip_trimmed].
  destruct (strip x); [discriminate | discriminate].
Qed.

Lemma paragraph_nonblank (p : text) :
  paragraph_like p -> exists c, In c p /\ is_space c = false.
Proof.
  intros [Hne [Hhd _]]. destruct p as [|c p]; [congruence|].
  exists c. split; [now left | now apply Hhd].
Qed.

Lemma close_section_ok (paragraphs sections : list text) (cs : text) :
  Forall (section_ok paragraphs) sections ->
  Forall paragraph_like paragraphs ->
  open_section_ok paragraphs cs ->
  Forall (section_ok paragraphs) (VoiceGenerator.close_section sections cs).
Proof.
  intros Hsec Hpar Hopen. unfold VoiceGenerator.close_section.
  destruct Hopen as [-> | (body & -> & (c & Hin & Hc) & Hsize)]; [exact Hsec|].
  assert (Hnn : is_nil (body ++ [space]) = false) by now destruct body.
  rewrite Hnn. apply Forall_app. split; [exact Hsec|].
  constructor; [|constructor]. rewrite strip_snoc_space.
  split; [|split].
  - intros Hnil. pose proof (strip_nonblank body c Hin Hc) as H.
    now rewrite Hnil in H.
  - apply strip_trimmed.
  - destruct Hsize as [Hlt | Hp].
    + left. pose proof (strip_length body). lia.
    + right. rewrite Forall_forall in Hpar.
      rewrite strip_fixed; [exact Hp | apply (Hpar body Hp)].
Qed.

Lemma section_step_ok (paragraphs sections : list text) (cs p : text) :
  Forall paragraph_like paragraphs -> In p paragraphs ->
  Forall (section_ok paragraphs) sections ->
  open_section_ok paragraphs cs ->
  Forall (section_ok paragraphs)
         (fst (VoiceGenerator.section_step (sections, cs) p))
  /\ open_section_ok paragraphs
       (snd (VoiceGenerator.section_step (sections, cs) p)).
Proof.
  intros Hpar Hp Hsec Hopen. unfold VoiceGenerator.section_step.
  assert (Hlike : paragraph_like p)
    by (rewrite Forall_forall in Hpar; now apply Hpar).
  destruct (paragraph_nonblank Hlike) as (c & Hc & Hsp).
  destruct (length (cs ++ p) <? 800) eqn:Hlen; cbn [fst snd].
  - split; [exact Hsec|]. right. exists (cs ++ p).
    split; [now rewrite <- app_assoc|]. split.
    + exists c. split; [apply in_or_app; now right | exact Hsp].
    + left. now apply Nat.ltb_lt.
  - split; [now apply close_section_ok|]. right. exists p.
    split; [reflexivity|]. split; [now exists c | now right].
Qed.

Lemma section_loop_ok (paragraphs ps : list text) :
  Forall paragraph_like paragraphs -> incl ps paragraphs ->
  forall st : list text * text,
    Forall (section_ok paragraphs) (fst st) ->
    open_section_ok paragraphs (snd st) ->
    Forall (section_ok paragraphs)
           (fst (fold_left VoiceGenerator.section_step ps st))
    /\ open_section_ok paragraphs
         (snd (fold_left VoiceGenerator.section_step ps st)).
Proof.
  intros Hpar. induction ps as [|p ps IH]; intros Hincl [sections cs] Hsec Hopen.
  - now split.
  - cbn [fold_left]. cbn [fst snd] in Hsec, Hopen.
    destruct (@section_step_ok paragraphs sections cs p Hpar
                (Hincl p (or_introl eq_refl)) Hsec Hopen) as [H1 H2].
    apply IH; [intros x Hx; apply Hincl; now right | exact H1 | exact H2].
Qed.

(** X20.  Every section that [_extract_text_sections] returns is not empty,
    neither starts nor ends with whitespace, and has fewer than 800
    characters unless it is one paragraph of the text on its own. *)
Theorem text_sections_bounded (t : text) :
  Forall (fun s => s <> [] /\ trimmed s
                   /\ (length s < 800
                       \/ In s (VoiceGenerator.paragraphs_of t)))
         (VoiceGenerator._extract_text_sections t).
Proof.
  unfold VoiceGenerator._extract_text_sections.
  pose proof (paragraphs_like t) as Hpar.
  destruct (@section_loop_ok (VoiceGenerator.paragraphs_of t)
              (VoiceGenerator.paragraphs_of t) Hpar (incl_refl _)
              ([], []) (Forall_nil _) (or_introl eq_refl)) as [Hsec Hopen].
  destruct (fold_left _ _ _) as [sections cs]. cbn [fst snd] in *.
  now apply close_section_ok.
Qed.

(** *** No word is lost on the way to the sections *)

Lemma starts_word_split (s : text) :
  starts_word s = true -> str_split s <> [].
Proof.
  destruct s as [|c s]; [discriminate|]. simpl.
  destruct (is_space c); [discriminate|]. intros _.
  destruct (starts_word s); [destruct (str_split s)|]; discriminate.
Qed.

Lemma str_split_app_space (a b : text) (c : ascii) :
  is_space c = true -> str_split (a ++ c :: b) = str_split a ++ str_split b.
Proof.
  intros Hc. induction a as [|x a IH].
  - simpl. now rewrite Hc.
  - cbn [app str_split]. destruct (is_space x); [exact IH|].
    destruct a as [|d a'].
    + cbn [app starts_word str_split]. rewrite Hc. reflexivity.
    + change (starts_word ((d :: a') ++ c :: b)) with (starts_word (d :: a')).
      rewrite IH. destruct (starts_word (d :: a')) eqn:Hsw; [|reflexivity].
      apply starts_word_split in Hsw.
      destruct (str_split (d :: a')); [congruence | reflexivity].
Qed.

Lemma str_split_app_blank (a b : text) :
  forallb is_space b = true -> str_split (a ++ b) = str_split a.
Proof.
  destruct b as [|c b]; [now rewrite app_nil_r|]. simpl. intros H.
  apply andb_prop in H. destruct H as [Hc Hb].
  rewrite str_split_app_space by exact Hc.
  apply str_split_nil_iff in Hb. rewrite Hb. apply app_nil_r.
Qed.

Lemma str_split_lstrip (s : text) : str_split (lstrip s) = str_split s.
Proof.
  induction s as [|c s IH]; [reflexivity|]. simpl.
  destruct (is_space c) eqn:Hc; [exact IH|]. simpl. now rewrite Hc.
Qed.

Lemma forallb_rev {A} (f : A -> bool) (l : list A) :
  forallb f l = true -> forallb f (rev l) = true.
Proof.
  rewrite !forallb_forall. intros H x Hx. apply H. now apply in_rev.
Qed.

Lemma str_split_strip (s : text) : str_split (strip s) = str_split s.
Proof.
  unfold strip. rewrite <- (str_split_lstrip s).
  destruct (lstrip_blank_prefix (rev (lstrip s))) as (p & Hp & Hblank).
  assert (Hy : lstrip s = rev (lstrip (rev (lstrip s))) ++ rev p).
  { rewrite <- rev_app_distr, <- Hp. symmetry. apply rev_involutive. }
  rewrite Hy at 2. symmetry. apply str_split_app_blank.
  now apply forallb_rev.
Qed.

Lemma blank_line_prefix (s : text) :
  prefix_of VoiceGenerator.blank_line s = true ->
  exists c d s', s = c :: d :: s' /\ is_space c = true /\ is_space d = true.
Proof.
  unfold VoiceGenerator.blank_line. destruct s as [|c [|d s']]; simpl;
    try discriminate; [now rewrite andb_false_r|].
  intros H. apply andb_prop in H. destruct H as [Hc H].
  apply andb_prop in H. destruct H as [Hd _].
  exists c, d, s'. split; [reflexivity|].
  split; apply newline_is_space; unfold is_newline; now rewrite N.eqb_sym.
Qed.

Lemma split_at_tokens (s : text) :
  forall (cur : text) (skip : nat),
    concat (map str_split
                (VoiceGenerator.split_at VoiceGenerator.blank_line s cur skip))
    = str_split (rev cur ++ skipn skip s).
Proof.
  induction s as [|c s IH]; intros cur skip.
  - simpl. now destruct skip; rewrite !app_nil_r.
  - destruct skip as [|k]; cbn [VoiceGenerator.split_at skipn].
    + destruct (prefix_of VoiceGenerator.blank_line (c :: s)) eqn:Hpre.
      * destruct (blank_line_prefix _ Hpre) as (c' & d & s' & E & Hc & Hd).
        inversion E; subst c' s. cbn [map concat]. rewrite IH.
        change (length VoiceGenerator.blank_line - 1) with 1.
        cbn [rev app skipn].
        rewrite str_split_app_space by exact Hc.
        f_equal. simpl. now rewrite Hd.
      * rewrite IH. cbn [rev skipn]. now rewrite <- app_assoc.
    + apply IH.
Qed.

Lemma paragraphs_tokens (t : text) :
  concat (map str_split (VoiceGenerator.paragraphs_of t)) = str_split t.
Proof.
  unfold VoiceGenerator.paragraphs_of.
  rewrite <- (split_at_tokens t [] 0) at 1.
  induction (VoiceGenerator.split_at VoiceGenerator.blank_line t [] 0)
    as [|p ps IH]; [reflexivity|].
  cbn [filter map concat]. rewrite <- IH, <- (str_split_strip p).
  destruct (strip p) eqn:Hp; cbn [is_nil negb map concat]; [reflexivity|].
  now rewrite Hp.
Qed.

Lemma close_section_tokens (sections : list text) (cs : text) :
  concat (map str_split (VoiceGenerator.close_section sections cs))
  = section_tokens (sections, cs).
Proof.
  unfold VoiceGenerator.close_section, section_tokens. cbn [fst snd].
  destruct cs as [|c cs]; cbn [is_nil]; [now rewrite app_nil_r|].
  rewrite map_app, concat_app. cbn [map concat].
  now rewrite app_nil_r, str_split_strip.
Qed.

Lemma section_step_tokens (st : list text * text) (p : text) :
  ends_spaced (snd st) ->
  section_tokens (VoiceGenerator.section_step st p)
  = section_tokens st ++ str_split p
  /\ ends_spaced (snd (VoiceGenerator.section_step st p)).
Proof.
  destruct st as [sections cs]. cbn [snd]. intros Hcs.
  assert (Hp : str_split (p ++ [space]) = str_split p)
    by now apply str_split_app_blank.
  unfold VoiceGenerator.section_step.
  destruct (length (cs ++ p) <? 800); unfold section_tokens; cbn [fst snd].
  - split.
    + rewrite <- app_assoc. f_equal.
      destruct Hcs as [-> | (body & ->)]; [exact Hp|].
      rewrite <- app_assoc. cbn [app].
      rewrite str_split_app_space by reflexivity. rewrite Hp.
      now rewrite (str_split_app_blank body [space]).
    + right. exists (cs ++ p). now rewrite <- app_assoc.
  - split.
    + rewrite close_section_tokens. unfold section_tokens. cbn [fst snd].
      now rewrite Hp.
    + right. now exists p.
Qed.

Lemma section_loop_tokens (ps : list text) :
  forall st : list text * text,
    ends_spaced (snd st) ->
    section_tokens (fold_left VoiceGenerator.section_step ps st)
    = section_tokens st ++ concat (map str_split ps)
    /\ ends_spaced (snd (fold_left VoiceGenerator.section_step ps st)).
Proof.
  induction ps as [|p ps IH]; intros st Hst.
  - simpl. now rewrite app_nil_r.
  - cbn [fold_left map concat].
    destruct (section_step_tokens st p Hst) as [Htok Hend].
    destruct (IH _ Hend) as [IH1 IH2]. split; [|exact IH2].
    now rewrite IH1, Htok, <- app_assoc.
Qed.

(** X21.  The sections of [_extract_text_sections] hold the words of the
    text: their tokens, section after section, are the tokens of the text in
    their order. *)
Theorem text_sections_keep_tokens (t : text) :
  concat (map str_split (VoiceGenerator._extract_text_sections t))
  = str_split t.
Proof.
  unfold VoiceGenerator._extract_text_sections.
  destruct (section_loop_tokens (VoiceGenerator.paragraphs_of t) ([], [])
              (or_introl eq_refl)) as [Htok _].
  destruct (fold_left _ _ _) as [sections cs].
  rewrite close_section_tokens, Htok. unfold section_tokens at 1.
  cbn [fst snd map concat str_split app]. apply paragraphs_tokens.
Qed.

Example split_on_blank_lines :
  VoiceGenerator.split_at VoiceGenerator.blank_line
    (str "a" ++ newline :: newline :: newline :: str "b") [] 0
  = [str "a"; newline :: str "b"]
  /\ VoiceGenerator.split_at VoiceGenerator.blank_line [newline; newline] [] 0
     = [[]; []].
Proof. split; vm_compute; reflexivity. Qed.

(** ** The requests for a short document *)

Lemma joined_tokens_length_strong (s : text) :
  length (str_join [space] (str_split s)) <= length s
  /\ (starts_word s = false -> s <> [] ->
      S (length (str_join [space] (str_split s))) <= length s).
Proof.
  induction s as [|c s [IH1 IH2]]; [split; [simpl; lia | congruence]|].
  cbn [str_split starts_word length].
  destruct (is_space c); cbn [negb]; [split; [lia | intros _ _; lia]|].
  split; [|discriminate].
  destruct (starts_word s) eqn:Hsw.
  - destruct (str_split s) as [|w ws]; [simpl; lia|].
    assert (E : str_join [space] ((c :: w) :: ws)
                = c :: str_join [space] (w :: ws)) by now destruct ws.
    rewrite E. cbn [length]. lia.
  - destruct (str_split s) as [|w ws] eqn:Hs; [simpl; lia|].
    rewrite str_join_cons by discriminate.
    rewrite !length_app. cbn [length].
    assert (Hne : s <> []) by (intros ->; discriminate).
    specialize (IH2 eq_refl Hne). lia.
Qed.

Lemma joined_tokens_length (s : text) :
  length (str_join [space] (str_split s)) <= length s.
Proof. apply joined_tokens_length_strong. Qed.

Lemma short_document_chunk_count (s : text) :
  (len s < max_chunk_length)%Z ->
  length (_split_text_into_chunks s max_chunk_length) <= 1.
Proof.
  intros Hshort.
  destruct (str_split s) as [|w ws] eqn:Htok.
  - destruct (chunk_groups s max_chunk_length) as (gs & Hne & Hcs & Hcat).
    rewrite Hcs, Htok in *. destruct gs as [|g gs]; [simpl; lia|].
    inversion Hne; subst. destruct g; [congruence | discriminate].
  - pose proof (joined_tokens_length s) as Hjoin.
    rewrite Htok in Hjoin. unfold _split_text_into_chunks. rewrite Htok.
    cbn [fold_left]. unfold chunk_step at 2.
    cbn [chunks current_chunk current_length is_nil negb].
    rewrite andb_false_r. change ([] ++ [w]) with [w].
    replace (0 + len w + 1)%Z with (len (str_join [space] [w]) + 1)%Z
      by (simpl; lia).
    rewrite chunk_loop_no_flush;
      [simpl; lia | discriminate | unfold len in *; cbn [app]; lia].
Qed.

Section ShortDocument.

Variable world : Type.
Variable complete : request -> world -> option text * world.
Variable textstat : text -> option (list (text * Q)).

Lemma create_openai_summary_calls (t : text)
      (target_word_count duration_minutes : Z) (tr : trace world) :
  exists new : list request,
    calls (snd (_create_openai_summary complete t target_word_count
                                       duration_minutes tr))
    = calls tr ++ new
    /\ length new
       <= length (_split_text_into_chunks t max_chunk_length) + 1.
Proof.
  rewrite create_openai_summary_run.
  destruct (@summarize_chunks_calls world complete target_word_count
              duration_minutes
              (_split_text_into_chunks t max_chunk_length) [] tr)
    as (new & Hcalls & _ & Hlen & _).
  destruct (summarize_chunks _ _ _ _ _ _) as [[summaries | e] tr1];
    cbn [snd] in Hcalls.
  - cbn zeta. destruct (too_long _ _).
    + exists (new ++ [ShortenRequest (str_join [space] summaries)
                        target_word_count duration_minutes
                        (target_word_count + 200)%Z]).
      rewrite length_app. cbn [length].
      split; [|lia].
      destruct (complete _ (service tr1)) as [[content|] w]; cbn [snd calls];
        now rewrite Hcalls, app_assoc.
    + exists new. split; [exact Hcalls | lia].
  - exists new. split; [exact Hcalls | lia].
Qed.

(** X22.  A document whose cleaned text has fewer than 12000 characters
    costs at most two requests: one for its single chunk and at most one to
    shorten the summary. *)
Theorem short_document_two_requests (t : text) (target_duration_minutes : Z)
        (tr : trace world) :
  (len (_clean_text t) < max_chunk_length)%Z ->
  length (_split_text_into_chunks (_clean_text t) max_chunk_length) <= 1
  /\ exists new : list request,
       calls (snd (summarize_for_video complete textstat t
                                       target_duration_minutes tr))
       = calls tr ++ new
       /\ length new <= 2.
Proof.
  intros Hshort.
  pose proof (short_document_chunk_count (_clean_text t) Hshort) as Hone.
  split; [exact Hone|].
  rewrite summarize_for_video_run.
  destruct (create_openai_summary_calls (_clean_text t)
              (target_duration_minutes * 155) target_duration_minutes tr)
    as (new & Hcalls & Hlen).
  exists new. split; [|lia].
  destruct (_create_openai_summary _ _ _ _ _) as [[s | e] tr1];
    cbn [snd] in *; [|exact Hcalls].
  now destruct (is_nil s).
Qed.

End ShortDocument.

Lemma short_document_two_requests_witness :
  (len (_clean_text sample_document) < max_chunk_length)%Z
  /\ length (_split_text_into_chunks (_clean_text sample_document)
                                     max_chunk_length) <= 1
  /\ exists new : list request,
       calls (snd (summarize_for_video (stub_model (str "A short summary."))
                     no_textstat sample_document 15 fresh))
       = calls fresh ++ new
       /\ length new <= 2.
Proof.
  assert (H : (len (_clean_text sample_document) < max_chunk_length)%Z)
    by (vm_compute; reflexivity).
  split; [exact H|].
  exact (@short_document_two_requests unit
           (stub_model (str "A short summary.")) no_textstat
           sample_document 15 fresh H).
Defined.

(** ** The word count of a returned record *)

Lemma trimmed_has_token (s : text) :
  s <> [] -> trimmed s -> str_split s <> [].
Proof.
  intros Hne [Hhd _]. apply starts_word_split.
  destruct s as [|c s]; [congruence|]. simpl.
  now rewrite (Hhd c eq_refl).
Qed.

Section WordCount.

Variable world : Type.
Variable complete : request -> world -> option text * world.
Variable textstat : text -> option (list (text * Q)).

Lemma single_chunk_summary (target_word_count duration_minutes : Z)
      (chunks summaries : list text) (tr tr1 : trace world) :
  length chunks <= 1 ->
  summarize_chunks complete chunks target_word_count duration_minutes [] tr
  = (Returns summaries, tr1) ->
  exists x, str_join [space] summaries = strip x.
Proof.
  destruct chunks as [|chunk [|other rest]]; simpl length; intros Hlen;
    [| |lia].
  - intros H. inversion H; subst. now exists [].
  - rewrite summarize_chunks_cons. cbn zeta.
    destruct (complete _ (service tr)) as [[content|] w]; [|discriminate].
    intros H. inversion H; subst. now exists content.
Qed.

(** X23.  The record that [summarize_for_video] returns for a document
    whose cleaned text has fewer than 12000 characters has a summary of at
    least one word. *)
Theorem short_document_summary_has_word (t : text)
        (target_duration_minutes : Z) (tr tr' : trace world) (r : result) :
  (len (_clean_text t) < max_chunk_length)%Z ->
  summarize_for_video complete textstat t target_duration_minutes tr
  = (Returns r, tr') ->
  (1 <= word_count r)%Z.
Proof.
  intros Hshort Hrun.
  pose proof (@short_document_chunk_count (_clean_text t) Hshort) as Hone.
  apply summarize_for_video_returns in Hrun.
  destruct Hrun as (s & Hcreate & Hne & ->). cbn [word_count].
  assert (Hstrip : exists x, s = strip x).
  { rewrite create_openai_summary_run in Hcreate.
    destruct (summarize_chunks _ _ _ _ _ _) as [[summaries | e] tr1] eqn:Hloop;
      [|discriminate].
    destruct (single_chunk_summary _ _ _ _ Hone Hloop) as [x Hx].
    cbn zeta in Hcreate. destruct (too_long _ _).
    - destruct (complete _ (service tr1)) as [[content|] w]; [|discriminate].
      inversion Hcreate. now exists content.
    - inversion Hcreate; subst. now exists x. }
  destruct Hstrip as [x ->].
  pose proof (trimmed_has_token Hne (strip_trimmed x)) as Htok.
  unfold word_count_of. destruct (str_split (strip x)); [congruence|].
  cbn [length]. lia.
Qed.

End WordCount.

Lemma short_document_summary_has_word_witness :
  (len (_clean_text sample_document) < max_chunk_length)%Z
  /\ exists (r : result) (tr' : trace unit),
       summarize_for_video (stub_model (str "A short summary.")) no_textstat
                           sample_document 15 fresh
       = (Returns r, tr')
       /\ (1 <= word_count r)%Z.
Proof.
  assert (H : (len (_clean_text sample_document) < max_chunk_length)%Z)
    by (vm_compute; reflexivity).
  split; [exact H|].
  destruct (summarize_for_video (stub_model (str "A short summary."))
              no_textstat sample_document 15 fresh) as [[r | e] tr'] eqn:Hrun.
  - exists r, tr'. split; [reflexivity|].
    exact (@short_document_summary_has_word unit _ _ _ _ _ _ _ H Hrun).
  - vm_compute in Hrun. discriminate Hrun.
Defined.

(** Without the bound on the length the summary can be without a word: for
    a document of two chunks and a model that answers with a space,
    [_create_openai_summary] returns one space, which is not the empty
    string and has no word. *)
Example blank_answers_count_no_word :
  length (_split_text_into_chunks long_document max_chunk_length) = 2
  /\ fst (_create_openai_summary (stub_model [space]) long_document
                                 2325 15 fresh)
     = Returns [space]
  /\ word_count_of [space] = 0%Z.
Proof. repeat split; vm_compute; reflexivity. Qed.
